(** * trade_engine: price-time priority matching engine

    A shallow embedding of [src/models/Order.js], [src/models/Trade.js],
    [src/matching/MatchingEngine.js] and of the parts of
    [src/services/ExchangeService.js], [src/db/postgres.js] and
    [src/db/redis.js] that submit, cancel and recover orders.

    JavaScript numbers are kept abstract behind the interface [JsNum]: the
    program text is embedded once and read at two instances,
    - [ZNum]: exact quantities, counted in units of 10^-8 (the data model's
      eight fractional digits); on integral doubles below 2^53 this is what
      the JavaScript arithmetic computes as well;
    - [FloatNum]: IEEE-754 binary64, the arithmetic a JavaScript engine
      performs on arbitrary [Number]s.

    Order objects are mutable and shared between the price levels, the
    [orders] index and the caller of [processOrder]; they live in an explicit
    object store ([heap]) and are referred to by location.

    Left out: logging, metrics, client positions, the generated [trade_id],
    wall-clock [updated_at] and trade time stamps, the idempotency TTL, and
    the interleaving of tasks at [await] (commands run one at a time). *)

From Stdlib Require Import ZArith QArith Floats.
From stdpp Require Import base option list gmap strings sorting.

Set Warnings "-inexact-float".
#[local] Open Scope string_scope.

(** ** JavaScript numbers *)

Class JsNum (num : Type) := {
  nzero : num;                    (* the literal 0 *)
  nadd : num -> num -> num;       (* a + b *)
  nsub : num -> num -> num;       (* a - b *)
  nltb : num -> num -> bool;      (* a < b;  a > b is [nltb b a] *)
  nleb : num -> num -> bool;      (* a <= b; a >= b is [nleb b a] *)
  neqb : num -> num -> bool;      (* a === b *)
  nsame : num -> num -> bool;     (* SameValueZero, the equality of Map keys *)
  nmin : num -> num -> num;       (* Math.min(a, b) *)
}.

#[export] Instance ZNum : JsNum Z := {|
  nzero := 0%Z;
  nadd := Z.add;
  nsub := Z.sub;
  nltb := Z.ltb;
  nleb := Z.leb;
  neqb := Z.eqb;
  nsame := Z.eqb;
  nmin := Z.min;
|}.

Definition float_min (a b : float) : float :=
  if PrimFloat.is_nan a || PrimFloat.is_nan b then PrimFloat.nan
  else if PrimFloat.ltb a b then a
  else if PrimFloat.ltb b a then b
  else if PrimFloat.get_sign a then a else b.   (* Math.min(-0, +0) is -0 *)

#[export] Instance FloatNum : JsNum float := {|
  nzero := PrimFloat.zero;
  nadd := PrimFloat.add;
  nsub := PrimFloat.sub;
  nltb := PrimFloat.ltb;
  nleb := PrimFloat.leb;
  neqb := PrimFloat.eqb;
  nsame := fun a b => PrimFloat.eqb a b || (PrimFloat.is_nan a && PrimFloat.is_nan b);
  nmin := float_min;
|}.

(** ** Entities: [Order] and [Trade] *)

Inductive Side := buy | sell.
Inductive OrderType := limit | market.
Inductive Status := open | partially_filled | filled | cancelled | rejected.

#[export] Instance Side_eq_dec : EqDecision Side.
Proof. solve_decision. Defined.
#[export] Instance OrderType_eq_dec : EqDecision OrderType.
Proof. solve_decision. Defined.
#[export] Instance Status_eq_dec : EqDecision Status.
Proof. solve_decision. Defined.

(** A call either returns or throws. *)
Inductive Result (A : Type) :=
  | Ok (a : A)
  | Throw (msg : string).
Arguments Ok {A} a.
Arguments Throw {A} msg.

(** Objects are referred to by their location in the object store. *)
Abbreviation loc := nat (only parsing).

Section Entities.
Context {num : Type} `{JsNum num}.

(** [created_at] is a millisecond time stamp.  A market order carries no
    price in the source ([undefined] or [null]); its [price] field is never
    read unless the order were to rest in a book. *)
Record Order := mkOrder {
  order_id : string;
  client_id : string;
  instrument : string;
  side : Side;
  type : OrderType;
  price : num;
  quantity : num;
  filled_quantity : num;
  status : Status;
  idempotency_key : option string;
  created_at : Z;
}.

Definition set_status (s : Status) (o : Order) : Order :=
  mkOrder (order_id o) (client_id o) (instrument o) (side o) (type o) (price o)
          (quantity o) (filled_quantity o) s (idempotency_key o) (created_at o).

Definition set_filled_quantity (f : num) (o : Order) : Order :=
  mkOrder (order_id o) (client_id o) (instrument o) (side o) (type o) (price o)
          (quantity o) f (status o) (idempotency_key o) (created_at o).

(* get remaining_quantity() *)
Definition remaining_quantity (o : Order) : num :=
  nsub (quantity o) (filled_quantity o).

(* get is_filled(): this.filled_quantity >= this.quantity *)
Definition is_filled (o : Order) : bool :=
  nleb (quantity o) (filled_quantity o).

(* get is_open() *)
Definition is_open (o : Order) : bool :=
  match status o with
  | open | partially_filled => true
  | _ => false
  end.

(* fill(quantity) *)
Definition fill (q : num) (o : Order) : Order :=
  let o1 := set_filled_quantity (nadd (filled_quantity o) q) o in
  if is_filled o1 then set_status filled o1
  else if nltb nzero (filled_quantity o1) then set_status partially_filled o1
  else o1.

(* the value of the status field as the string the source holds *)
Definition status_name (s : Status) : string :=
  match s with
  | open => "open"
  | partially_filled => "partially_filled"
  | filled => "filled"
  | cancelled => "cancelled"
  | rejected => "rejected"
  end.

(* `Cannot cancel order ${this.order_id}: status is ${this.status}` *)
Definition cannot_cancel (o : Order) : string :=
  "Cannot cancel order " ++ order_id o ++ ": status is " ++ status_name (status o).

(* cancel(): throws unless the order is open *)
Definition cancel (o : Order) : Result Order :=
  if negb (is_open o) then Throw (cannot_cancel o)
  else Ok (set_status cancelled o).

(* reject(reason): the reason is not stored *)
Definition reject (reason : string) (o : Order) : Order :=
  set_status rejected o.

(* static fromDB(row): parseFloat on the numeric columns; the rows of the
   model hold numbers already *)
Definition fromDB (row : Order) : Order := row.

Record Trade := mkTrade {
  buy_order_id : string;
  sell_order_id : string;
  trade_instrument : string;
  trade_price : num;
  trade_quantity : num;
}.

End Entities.

Arguments Order num : clear implicits.
Arguments Trade num : clear implicits.

(** ** The order book *)

Section Book.
Context {num : Type} `{JsNum num}.

(** [Map<number, Array>]: keys in insertion order, compared by SameValueZero.
    The level arrays are not shared, so they are held by value. *)
Abbreviation PriceMap := (list (num * list loc)).

Fixpoint map_get (k : num) (m : PriceMap) : option (list loc) :=
  match m with
  | [] => None
  | (k', v) :: m' => if nsame k' k then Some v else map_get k m'
  end.

Definition map_has (k : num) (m : PriceMap) : bool :=
  match map_get k m with Some _ => true | None => false end.

Fixpoint map_set (k : num) (v : list loc) (m : PriceMap) : PriceMap :=
  match m with
  | [] => [(k, v)]
  | (k', v') :: m' => if nsame k' k then (k', v) :: m' else (k', v') :: map_set k v m'
  end.

Fixpoint map_delete (k : num) (m : PriceMap) : PriceMap :=
  match m with
  | [] => []
  | (k', v') :: m' => if nsame k' k then m' else (k', v') :: map_delete k m'
  end.

(** [Array.prototype.sort(compare)]: a stable sort; [compare a b < 0] puts
    [a] before [b]. *)
Fixpoint sort_insert (compare : num -> num -> num) (x : num) (l : list num) : list num :=
  match l with
  | [] => [x]
  | y :: l' => if nltb (compare x y) nzero then x :: l else y :: sort_insert compare x l'
  end.

Definition js_sort (compare : num -> num -> num) (l : list num) : list num :=
  fold_left (fun acc x => sort_insert compare x acc) l [].

Definition descending (a b : num) : num := nsub b a.   (* (a, b) => b - a *)
Definition ascending (a b : num) : num := nsub a b.    (* (a, b) => a - b *)

(* Array.prototype.findIndex *)
Fixpoint findIndex {A : Type} (f : A -> bool) (l : list A) : option nat :=
  match l with
  | [] => None
  | x :: l' => if f x then Some 0 else S <$> findIndex f l'
  end.

(** One side of the book: the level map with its sorted array of prices
    ([bids] with [bidPrices], [asks] with [askPrices]). *)
Record Ladder := mkLadder {
  levels : PriceMap;
  prices : list num;
}.

Record OrderBook := mkBook {
  bidLadder : Ladder;
  askLadder : Ladder;
  orders : gmap string loc;       (* order_id -> order *)
}.

Definition bids (b : OrderBook) : PriceMap := levels (bidLadder b).
Definition bidPrices (b : OrderBook) : list num := prices (bidLadder b).
Definition asks (b : OrderBook) : PriceMap := levels (askLadder b).
Definition askPrices (b : OrderBook) : list num := prices (askLadder b).

(* constructor(instrument) *)
Definition emptyBook : OrderBook := mkBook (mkLadder [] []) (mkLadder [] []) ∅.

(** The body shared by [addBid] and [addAsk], which differ in the fields
    they touch and in the comparator. *)
Definition ladder_add (compare : num -> num -> num) (l : loc) (o : Order num)
    (ld : Ladder) : Ladder :=
  let p := price o in
  let ld1 :=
    if negb (map_has p (levels ld))
    then mkLadder (map_set p [] (levels ld)) (js_sort compare (prices ld ++ [p]))
    else ld in
  match map_get p (levels ld1) with
  | Some level => mkLadder (map_set p (level ++ [l]) (levels ld1)) (prices ld1)
  | None => ld1
  end.

Definition addBid (l : loc) (o : Order num) (b : OrderBook) : OrderBook :=
  mkBook (ladder_add descending l o (bidLadder b)) (askLadder b) (orders b).

Definition addAsk (l : loc) (o : Order num) (b : OrderBook) : OrderBook :=
  mkBook (bidLadder b) (ladder_add ascending l o (askLadder b)) (orders b).

(* addOrder(order): [o] is the object at location [l] *)
Definition addOrder (l : loc) (o : Order num) (b : OrderBook) : OrderBook :=
  let b1 := mkBook (bidLadder b) (askLadder b) (<[order_id o := l]> (orders b)) in
  match side o with
  | buy => addBid l o b1
  | sell => addAsk l o b1
  end.

Definition same_order_id (heap : list (Order num)) (id : string) (l : loc) : bool :=
  match heap !! l with
  | Some o' => String.eqb (order_id o') id
  | None => false
  end.

(** The body shared by [removeBid] and [removeAsk]. *)
Definition ladder_remove (heap : list (Order num)) (o : Order num) (ld : Ladder) : Ladder :=
  let p := price o in
  match map_get p (levels ld) with
  | Some priceLevel =>
      match findIndex (same_order_id heap (order_id o)) priceLevel with
      | Some index =>
          let priceLevel' := delete index priceLevel in     (* splice(index, 1) *)
          match priceLevel' with
          | [] => mkLadder (map_delete p (levels ld))
                           (filter (fun p' => negb (neqb p' p) = true) (prices ld))
          | _ => mkLadder (map_set p priceLevel' (levels ld)) (prices ld)
          end
      | None => ld
      end
  | None => ld
  end.

Definition removeBid (heap : list (Order num)) (o : Order num) (b : OrderBook) : OrderBook :=
  mkBook (ladder_remove heap o (bidLadder b)) (askLadder b) (orders b).

Definition removeAsk (heap : list (Order num)) (o : Order num) (b : OrderBook) : OrderBook :=
  mkBook (bidLadder b) (ladder_remove heap o (askLadder b)) (orders b).

(* removeOrder(orderId) *)
Definition removeOrder (heap : list (Order num)) (orderId : string) (b : OrderBook) : OrderBook :=
  match orders b !! orderId with
  | None => b
  | Some l =>
      match heap !! l with
      | None => b
      | Some o =>
          let b1 := mkBook (bidLadder b) (askLadder b) (delete orderId (orders b)) in
          match side o with
          | buy => removeBid heap o b1
          | sell => removeAsk heap o b1
          end
      end
  end.

(** The body shared by [getBestBid] and [getBestAsk]. *)
Definition ladder_best (ld : Ladder) : option loc :=
  match prices ld with
  | [] => None
  | bestPrice :: _ =>
      match map_get bestPrice (levels ld) with
      | Some (l :: _) => Some l
      | _ => None
      end
  end.

Definition getBestBid (b : OrderBook) : option loc := ladder_best (bidLadder b).
Definition getBestAsk (b : OrderBook) : option loc := ladder_best (askLadder b).

Record SnapshotLevel := mkSnapshotLevel {
  level_price : num;
  level_quantity : num;
  level_cumulative : num;
}.

Record Snapshot := mkSnapshot {
  snapshot_bids : list SnapshotLevel;
  snapshot_asks : list SnapshotLevel;
}.

(* priceLevel.reduce((sum, order) => sum + order.remaining_quantity, 0) *)
Definition level_total (heap : list (Order num)) (priceLevel : list loc) : num :=
  fold_left (fun sum l =>
               match heap !! l with
               | Some o => nadd sum (remaining_quantity o)
               | None => sum
               end) priceLevel nzero.

(** One [for] loop of [getSnapshot], over the first [levels] prices. *)
Fixpoint snapshot_side (heap : list (Order num)) (m : PriceMap) (ps : list num)
    (total : num) : list SnapshotLevel :=
  match ps with
  | [] => []
  | p :: ps' =>
      let q := level_total heap (default [] (map_get p m)) in
      let total' := nadd total q in
      mkSnapshotLevel p q total' :: snapshot_side heap m ps' total'
  end.

(* getSnapshot(levels = 20) *)
Definition getSnapshot (heap : list (Order num)) (n : nat) (b : OrderBook) : Snapshot :=
  mkSnapshot (snapshot_side heap (bids b) (take n (bidPrices b)) nzero)
             (snapshot_side heap (asks b) (take n (askPrices b)) nzero).

End Book.

Arguments Ladder num : clear implicits.
Arguments OrderBook num : clear implicits.
Arguments SnapshotLevel num : clear implicits.
Arguments Snapshot num : clear implicits.

(** ** The matching engine *)

Section Engine.
Context {num : Type} `{JsNum num}.

(** The invocations of the two callbacks of [processOrder]; an order is
    recorded as it is read when the callback is entered. *)
Inductive Call :=
  | OnTrade (t : Trade num)
  | OnOrderUpdate (o : Order num).

(** [heap] holds the Order objects the engine has been handed; [calls] is the
    history of callback invocations (no field of the JavaScript object). *)
Record MatchingEngine := mkEngine {
  engine_instrument : string;
  orderBook : OrderBook num;
  trades : list (Trade num);
  lock : bool;
  pendingOrders : list loc;
  heap : list (Order num);
  calls : list Call;
}.

(* constructor(instrument = 'BTC-USD') *)
Definition newEngine (instr : string) : MatchingEngine :=
  mkEngine instr emptyBook [] false [] [] [].

Definition set_orderBook (b : OrderBook num) (e : MatchingEngine) : MatchingEngine :=
  mkEngine (engine_instrument e) b (trades e) (lock e) (pendingOrders e) (heap e) (calls e).

Definition set_heap (h : list (Order num)) (e : MatchingEngine) : MatchingEngine :=
  mkEngine (engine_instrument e) (orderBook e) (trades e) (lock e) (pendingOrders e) h (calls e).

Definition set_lock (b : bool) (e : MatchingEngine) : MatchingEngine :=
  mkEngine (engine_instrument e) (orderBook e) (trades e) b (pendingOrders e) (heap e) (calls e).

Definition set_pendingOrders (p : list loc) (e : MatchingEngine) : MatchingEngine :=
  mkEngine (engine_instrument e) (orderBook e) (trades e) (lock e) p (heap e) (calls e).

Definition push_trade (t : Trade num) (e : MatchingEngine) : MatchingEngine :=
  mkEngine (engine_instrument e) (orderBook e) (trades e ++ [t]) (lock e) (pendingOrders e)
           (heap e) (calls e).

Definition push_calls (c : list Call) (e : MatchingEngine) : MatchingEngine :=
  mkEngine (engine_instrument e) (orderBook e) (trades e) (lock e) (pendingOrders e)
           (heap e) (calls e ++ c).

(* _executeTrade(buyOrder, sellOrder, price, quantity, onTrade, onOrderUpdate) *)
Definition _executeTrade (buyOrder sellOrder : loc) (p q : num) (e : MatchingEngine)
    : MatchingEngine :=
  let h := alter (fill q) sellOrder (alter (fill q) buyOrder (heap e)) in
  match h !! buyOrder, h !! sellOrder with
  | Some bo, Some so =>
      let trade := mkTrade (order_id bo) (order_id so) (engine_instrument e) p q in
      let b1 := if is_filled bo then removeOrder h (order_id bo) (orderBook e)
                else orderBook e in
      let b2 := if is_filled so then removeOrder h (order_id so) b1 else b1 in
      push_calls [OnTrade trade; OnOrderUpdate bo; OnOrderUpdate so]
        (set_orderBook b2 (push_trade trade (set_heap h e)))
  | _, _ => e
  end.

(** The [while] loops of [_matchMarketOrder] and [_matchLimitOrder].  [s] is
    the side of the incoming order at [order], fixed by the enclosing [if];
    [limit_check] is set in [_matchLimitOrder], whose loops alone compare
    prices.  [None] when [fuel] iterations did not end the loop. *)
Fixpoint match_loop (s : Side) (limit_check : bool) (fuel : nat) (order : loc)
    (e : MatchingEngine) : option MatchingEngine :=
  match fuel with
  | O => None
  | S fuel' =>
      match heap e !! order with
      | None => Some e
      | Some o =>
          match s with
          | buy =>
              (* while (order.remaining_quantity > 0 && askPrices.length > 0) *)
              if nltb nzero (remaining_quantity o)
                 && negb (bool_decide (askPrices (orderBook e) = []))
              then
                match getBestAsk (orderBook e) with
                | None => Some e
                | Some best =>
                    match heap e !! best with
                    | None => Some e
                    | Some bestAsk =>
                        if limit_check && nltb (price o) (price bestAsk) then Some e
                        else
                          let tradeQuantity :=
                            nmin (remaining_quantity o) (remaining_quantity bestAsk) in
                          let tradePrice := price bestAsk in
                          match_loop s limit_check fuel' order
                            (_executeTrade order best tradePrice tradeQuantity e)
                    end
                end
              else Some e
          | sell =>
              (* while (order.remaining_quantity > 0 && bidPrices.length > 0) *)
              if nltb nzero (remaining_quantity o)
                 && negb (bool_decide (bidPrices (orderBook e) = []))
              then
                match getBestBid (orderBook e) with
                | None => Some e
                | Some best =>
                    match heap e !! best with
                    | None => Some e
                    | Some bestBid =>
                        if limit_check && nltb (price bestBid) (price o) then Some e
                        else
                          let tradeQuantity :=
                            nmin (remaining_quantity o) (remaining_quantity bestBid) in
                          let tradePrice := price bestBid in
                          match_loop s limit_check fuel' order
                            (_executeTrade best order tradePrice tradeQuantity e)
                    end
                end
              else Some e
          end
      end
  end.

(* _matchMarketOrder(order, onTrade, onOrderUpdate) *)
Definition _matchMarketOrder (fuel : nat) (order : loc) (e : MatchingEngine)
    : option MatchingEngine :=
  match heap e !! order with
  | None => Some e
  | Some o =>
      e1 ← match side o with
           | buy => match_loop buy false fuel order e
           | sell => match_loop sell false fuel order e
           end;
      match heap e1 !! order with
      | None => Some e1
      | Some o1 =>
          if nltb nzero (remaining_quantity o1) then
            let o2 := reject "Insufficient liquidity" o1 in
            Some (push_calls [OnOrderUpdate o2] (set_heap (<[order := o2]> (heap e1)) e1))
          else Some e1
      end
  end.

(* _matchLimitOrder(order, onTrade, onOrderUpdate) *)
Definition _matchLimitOrder (fuel : nat) (order : loc) (e : MatchingEngine)
    : option MatchingEngine :=
  match heap e !! order with
  | None => Some e
  | Some o =>
      match side o with
      | buy => match_loop buy true fuel order e
      | sell => match_loop sell true fuel order e
      end
  end.

(* _matchOrder(order, onTrade, onOrderUpdate) *)
Definition _matchOrder (fuel : nat) (order : loc) (e : MatchingEngine)
    : option MatchingEngine :=
  match heap e !! order with
  | None => Some e
  | Some o =>
      e1 ← match type o with
           | market => _matchMarketOrder fuel order e
           | limit => _matchLimitOrder fuel order e
           end;
      match heap e1 !! order with
      | None => Some e1
      | Some o1 =>
          if is_open o1 then
            Some (push_calls [OnOrderUpdate o1]
                    (set_orderBook (addOrder order o1 (orderBook e1)) e1))
          else Some e1
      end
  end.

(** [while (this.pendingOrders.length > 0)]: nothing is queued while the
    commands run one at a time, so the loop walks the queue it finds. *)
Fixpoint drain_pending (fuel : nat) (pending : list loc) (e : MatchingEngine)
    : option MatchingEngine :=
  match pending with
  | [] => Some e
  | p :: rest =>
      e1 ← _matchOrder fuel p (set_pendingOrders rest e);
      drain_pending fuel rest e1
  end.

(** [processOrder(order, onTrade, onOrderUpdate)], at an Order object already
    in the store. *)
Definition processOrder_at (fuel : nat) (order : loc) (e : MatchingEngine)
    : option MatchingEngine :=
  if lock e then Some (set_pendingOrders (pendingOrders e ++ [order]) e)
  else
    e1 ← _matchOrder fuel order (set_lock true e);
    e2 ← drain_pending fuel (pendingOrders e1) e1;
    Some (set_lock false e2).

(** [processOrder] on a freshly constructed Order: the object enters the
    store at the next free location. *)
Definition processOrder (fuel : nat) (o : Order num) (e : MatchingEngine)
    : option MatchingEngine :=
  processOrder_at fuel (length (heap e)) (set_heap (heap e ++ [o]) e).

(* `Order ${orderId} not found` *)
Definition not_found (orderId : string) : string :=
  "Order " ++ orderId ++ " not found".

(* cancelOrder(orderId) *)
Definition cancelOrder (orderId : string) (e : MatchingEngine)
    : Result (Order num * MatchingEngine) :=
  match orders (orderBook e) !! orderId with
  | None => Throw (not_found orderId)
  | Some l =>
      match heap e !! l with
      | None => Throw (not_found orderId)
      | Some o =>
          match cancel o with
          | Throw msg => Throw msg
          | Ok o' =>
              let h := <[l := o']> (heap e) in
              Ok (o', set_orderBook (removeOrder h orderId (orderBook e)) (set_heap h e))
          end
      end
  end.

(* getOrderBookSnapshot(levels = 20) *)
Definition getOrderBookSnapshot (n : nat) (e : MatchingEngine) : Snapshot num :=
  getSnapshot (heap e) n (orderBook e).

(* getOrder(orderId) *)
Definition getOrder (orderId : string) (e : MatchingEngine) : option (Order num) :=
  l ← orders (orderBook e) !! orderId; heap e !! l.

(* getRecentTrades(limit = 50): this.trades.slice(-limit).reverse(), for a
   limit that is a natural number; slice(-0) is slice(0), the whole array *)
Definition getRecentTrades (limit : nat) (e : MatchingEngine) : list (Trade num) :=
  reverse (match limit with
           | O => trades e
           | S _ => drop (length (trades e) - limit) (trades e)
           end).

(** Commands of one engine, run one after the other; a cancel that throws
    leaves the engine as it was. *)
Inductive Command :=
  | Submit (o : Order num)
  | Cancel (orderId : string).

Definition run_command (fuel : nat) (c : Command) (e : MatchingEngine)
    : option MatchingEngine :=
  match c with
  | Submit o => processOrder fuel o e
  | Cancel orderId =>
      match cancelOrder orderId e with
      | Ok (_, e') => Some e'
      | Throw _ => Some e
      end
  end.

Fixpoint run_commands (fuel : nat) (cs : list Command) (e : MatchingEngine)
    : option MatchingEngine :=
  match cs with
  | [] => Some e
  | c :: cs' => e1 ← run_command fuel c e; run_commands fuel cs' e1
  end.

End Engine.

Arguments Call num : clear implicits.
Arguments MatchingEngine num : clear implicits.
Arguments Command num : clear implicits.

(** ** The exchange service with its record store, cache and publications *)

Section Service.
Context {num : Type} `{JsNum num}.

Record OrderEvent := mkOrderEvent {
  event_order_id : string;
  event_type : string;
  event_data : Order num;
}.

(** The tables of [migrations/001_init.sql] the service writes; rows are kept
    in insertion order. *)
Record Postgres := mkPostgres {
  orders_table : list (Order num);
  trades_table : list (Trade num);
  order_events_table : list OrderEvent;
  order_book_snapshots_table : list (string * Snapshot num);
}.

(** Everything sent to Kafka ([kafkaProducer.send...]) and to the Redis
    channels ([redis.publish]). *)
Inductive Message :=
  | KafkaOrder (o : Order num)
  | KafkaOrderEvent (ev : OrderEvent)
  | KafkaTrade (t : Trade num)
  | KafkaOrderBookUpdate (instr : string) (s : Snapshot num)
  | RedisTrade (channel : string) (t : Trade num)
  | RedisOrder (channel : string) (o : Order num)
  | RedisOrderBook (channel : string) (s : Snapshot num).

Record ExchangeService := mkService {
  engines : gmap string (MatchingEngine num);   (* instrument -> MatchingEngine *)
  postgres : Postgres;
  redis : gmap string string;                   (* the keys of the cache *)
  published : list Message;
}.

Definition newService (db : Postgres) (cache : gmap string string) : ExchangeService :=
  mkService ∅ db cache [].

(* config.matching.defaultInstrument *)
Definition defaultInstrument : string := "BTC-USD".

(** *** postgres.js *)

(* saveOrder(order): INSERT ... ON CONFLICT (order_id) DO UPDATE SET
   filled_quantity, status, updated_at *)
Fixpoint upsert_order (o : Order num) (rows : list (Order num)) : list (Order num) :=
  match rows with
  | [] => [o]
  | r :: rows' =>
      if String.eqb (order_id r) (order_id o)
      then set_status (status o) (set_filled_quantity (filled_quantity o) r) :: rows'
      else r :: upsert_order o rows'
  end.

Definition saveOrder (o : Order num) (db : Postgres) : Postgres :=
  mkPostgres (upsert_order o (orders_table db)) (trades_table db) (order_events_table db)
             (order_book_snapshots_table db).

(* getOrder(orderId): SELECT * FROM orders WHERE order_id = $1; rows[0] || null *)
Definition db_getOrder (orderId : string) (db : Postgres) : option (Order num) :=
  List.find (fun r => String.eqb (order_id r) orderId) (orders_table db).

Definition saveTrade (t : Trade num) (db : Postgres) : Postgres :=
  mkPostgres (orders_table db) (trades_table db ++ [t]) (order_events_table db)
             (order_book_snapshots_table db).

Definition saveOrderEvent (ev : OrderEvent) (db : Postgres) : Postgres :=
  mkPostgres (orders_table db) (trades_table db) (order_events_table db ++ [ev])
             (order_book_snapshots_table db).

Definition saveOrderBookSnapshot (instr : string) (s : Snapshot num) (db : Postgres) : Postgres :=
  mkPostgres (orders_table db) (trades_table db) (order_events_table db)
             (order_book_snapshots_table db ++ [(instr, s)]).

Definition created_before (a b : Order num) : Prop := (created_at a <= created_at b)%Z.

#[global] Instance created_before_dec : RelDecision created_before.
Proof. intros a b. unfold created_before. apply _. Defined.

#[global] Instance created_before_trans : Transitive created_before.
Proof. intros a b c. unfold created_before. lia. Qed.

#[global] Instance created_before_total : Total created_before.
Proof. intros a b. unfold created_before. lia. Qed.

(* getOpenOrders(instrument): SELECT * FROM orders WHERE instrument = $1
   AND status IN ('open', 'partially_filled') ORDER BY created_at ASC *)
Definition getOpenOrders (instr : string) (db : Postgres) : list (Order num) :=
  merge_sort created_before
    (List.filter (fun r => String.eqb (instrument r) instr && is_open r) (orders_table db)).

(** *** redis.js *)

Definition redis_get (key : string) (cache : gmap string string) : option string :=
  cache !! key.

(* setIfNotExists(key, value, ttl): SET ... NX *)
Definition setIfNotExists (key value : string) (cache : gmap string string)
    : gmap string string :=
  match cache !! key with
  | Some _ => cache
  | None => <[key := value]> cache
  end.

Definition setIdempotencyKey (key orderId : string) (cache : gmap string string)
    : gmap string string :=
  setIfNotExists ("idempotency:" ++ key) orderId cache.

Definition getIdempotencyKey (key : string) (cache : gmap string string) : option string :=
  redis_get ("idempotency:" ++ key) cache.

(** *** ExchangeService.js *)

Definition set_engine (instr : string) (e : MatchingEngine num) (s : ExchangeService)
    : ExchangeService :=
  mkService (<[instr := e]> (engines s)) (postgres s) (redis s) (published s).

Definition set_postgres (db : Postgres) (s : ExchangeService) : ExchangeService :=
  mkService (engines s) db (redis s) (published s).

Definition set_redis (cache : gmap string string) (s : ExchangeService) : ExchangeService :=
  mkService (engines s) (postgres s) cache (published s).

Definition publish (ms : list Message) (s : ExchangeService) : ExchangeService :=
  mkService (engines s) (postgres s) (redis s) (published s ++ ms).

(* getEngine(instrument): creates the engine on first use *)
Definition getEngine (instr : string) (s : ExchangeService)
    : MatchingEngine num * ExchangeService :=
  match engines s !! instr with
  | Some e => (e, s)
  | None => (newEngine instr, set_engine instr (newEngine instr) s)
  end.

(** The body of the [for] loop of [_loadOpenOrders]: a new Order object per
    row, added to the book when open. *)
Definition load_row (e : MatchingEngine num) (orderRow : Order num) : MatchingEngine num :=
  let order := fromDB orderRow in
  if is_open order then
    let l := length (heap e) in
    set_orderBook (addOrder l order (orderBook e)) (set_heap (heap e ++ [order]) e)
  else e.

(* _loadOpenOrders(): returns the instruments loaded *)
Definition _loadOpenOrders (s : ExchangeService) : list string * ExchangeService :=
  let instr := defaultInstrument in       (* For now, just load default instrument *)
  let openOrders := getOpenOrders instr (postgres s) in
  let '(engine, s1) := getEngine instr s in
  ([instr], set_engine instr (fold_left load_row openOrders engine) s1).

(* initialize(), without the snapshot timer *)
Definition initialize (s : ExchangeService) : ExchangeService :=
  snd (_loadOpenOrders s).

Record OrderData := mkOrderData {
  data_order_id : option string;
  data_client_id : string;
  data_instrument : option string;
  data_side : Side;
  data_type : OrderType;
  data_price : num;
  data_quantity : num;
}.

Record SubmitResult := mkSubmitResult {
  result_order : Order num;
  result_trades : list (Trade num);
  result_orderbook : option (Snapshot num);     (* [None] is the empty object *)
}.

(* a || b on an optional string: the empty string is falsy *)
Definition string_or (a : option string) (b : string) : string :=
  match a with
  | Some "" | None => b
  | Some s => s
  end.

(* truthiness of an optional string *)
Definition truthy (a : option string) : bool :=
  match a with
  | Some "" | None => false
  | Some _ => true
  end.

(** The [onTrade] callback handed to [processOrder] by [submitOrder]. *)
Definition submit_onTrade (t : Trade num) (acc : list (Trade num) * ExchangeService)
    : list (Trade num) * ExchangeService :=
  let '(ts, s) := acc in
  ((ts ++ [t])%list,
   publish [KafkaTrade t; RedisTrade ("trades:" ++ trade_instrument t) t]
     (set_postgres (saveTrade t (postgres s)) s)).

(** The [onOrderUpdate] callback handed to [processOrder] by [submitOrder]. *)
Definition submit_onOrderUpdate (o : Order num) (acc : list (Trade num) * ExchangeService)
    : list (Trade num) * ExchangeService :=
  let '(ts, s) := acc in
  let ev := mkOrderEvent (order_id o) ("order_" ++ status_name (status o)) o in
  (ts,
   publish [KafkaOrder o; RedisOrder ("orders:" ++ instrument o) o]
     (set_postgres (saveOrderEvent ev (saveOrder o (postgres s))) s)).

Definition apply_call (acc : list (Trade num) * ExchangeService) (c : Call num)
    : list (Trade num) * ExchangeService :=
  match c with
  | OnTrade t => submit_onTrade t acc
  | OnOrderUpdate o => submit_onOrderUpdate o acc
  end.

(** [submitOrder(orderData, idempotencyKey = null)].  [now] is the clock and
    [uuid] the identifier [uuidv4()] would hand out.  [_validateOrder] is an
    async function called without [await]: its rejection never reaches the
    surrounding [try], so no check stands between the idempotency test and
    the construction of the order.  [None] when the engine ran out of fuel. *)
Definition submitOrder (fuel : nat) (now : Z) (uuid : string) (orderData : OrderData)
    (idempotencyKey : option string) (s : ExchangeService)
    : option (SubmitResult * ExchangeService) :=
  let existing :=
    if truthy idempotencyKey then
      let existingOrderId := getIdempotencyKey (default "" idempotencyKey) (redis s) in
      if truthy existingOrderId then
        db_getOrder (default "" existingOrderId) (postgres s)
      else None
    else None in
  match existing with
  | Some existingOrder => Some (mkSubmitResult (fromDB existingOrder) [] None, s)
  | None =>
      let order :=
        mkOrder (string_or (data_order_id orderData) uuid) (data_client_id orderData)
                (string_or (data_instrument orderData) defaultInstrument)
                (data_side orderData) (data_type orderData) (data_price orderData)
                (data_quantity orderData) nzero open idempotencyKey now in
      let s1 := set_postgres (saveOrder order (postgres s)) s in
      let s2 := if truthy idempotencyKey
                then set_redis (setIdempotencyKey (default "" idempotencyKey)
                                  (order_id order) (redis s1)) s1
                else s1 in
      let ev := mkOrderEvent (order_id order) "order_created" order in
      let s3 := set_postgres (saveOrderEvent ev (postgres s2)) s2 in
      let s4 := publish [KafkaOrder order; KafkaOrderEvent ev] s3 in
      let '(engine, s5) := getEngine (instrument order) s4 in
      engine' ← processOrder fuel order engine;
      let s6 := set_engine (instrument order) engine' s5 in
      let '(ts, s7) :=
        fold_left apply_call (drop (length (calls engine)) (calls engine')) ([], s6) in
      let snapshot := getOrderBookSnapshot 20 engine' in
      let s8 := publish [KafkaOrderBookUpdate (instrument order) snapshot;
                         RedisOrderBook ("orderbook:" ++ instrument order) snapshot] s7 in
      Some (mkSubmitResult (default order (heap engine' !! length (heap engine))) ts
              (Some snapshot), s8)
  end.

(** [cancelOrder(orderId, instrument = null)].  An exception of
    [engine.cancelOrder] leaves the function at once; what it returns is an
    object ([Some]), so the [if (!order)] branch with the look-up in the
    record store is written out but never taken. *)
Definition service_cancelOrder (orderId : string) (instr : option string)
    (s : ExchangeService) : Result (Order num) * ExchangeService :=
  let instr := string_or instr defaultInstrument in
  let '(engine, s1) := getEngine instr s in
  match cancelOrder orderId engine with
  | Throw msg => (Throw msg, s1)
  | Ok (o, engine') =>
      let s2 := set_engine instr engine' s1 in
      let order : option (Order num) := Some o in
      match order with
      | None =>
          (* Try to load from database *)
          match db_getOrder orderId (postgres s2) with
          | None => (Throw (not_found orderId), s2)
          | Some orderRow =>
              match cancel (fromDB orderRow) with
              | Throw msg => (Throw msg, s2)
              | Ok dbOrder => (Ok dbOrder, set_postgres (saveOrder dbOrder (postgres s2)) s2)
              end
          end
      | Some order =>
          let ev := mkOrderEvent (order_id order) "order_cancelled" order in
          let s3 := set_postgres (saveOrderEvent ev (saveOrder order (postgres s2))) s2 in
          let snapshot := getOrderBookSnapshot 20 engine' in
          (Ok order,
           publish [KafkaOrder order; KafkaOrderBookUpdate instr snapshot;
                    RedisOrderBook ("orderbook:" ++ instr) snapshot] s3)
      end
  end.

End Service.

Arguments OrderEvent num : clear implicits.
Arguments Postgres num : clear implicits.
Arguments Message num : clear implicits.
Arguments ExchangeService num : clear implicits.
Arguments OrderData num : clear implicits.
Arguments SubmitResult num : clear implicits.

(** ** Operations on one order, as a command language *)

Section OrderOps.
Context {num : Type} `{JsNum num}.

Inductive OrderOp :=
  | OpFill (q : num)
  | OpCancel
  | OpReject (reason : string).

(** A [cancel] that throws leaves the object as it was. *)
Definition apply_op (o : Order num) (op : OrderOp) : Order num :=
  match op with
  | OpFill q => fill q o
  | OpCancel => match cancel o with Ok o' => o' | Throw _ => o end
  | OpReject reason => reject reason o
  end.

Definition apply_ops (ops : list OrderOp) (o : Order num) : Order num :=
  fold_left apply_op ops o.

End OrderOps.

Arguments OrderOp num : clear implicits.

(** ** Specification predicates, at exact quantities *)

#[local] Open Scope Z_scope.

Definition terminal (o : Order Z) : Prop :=
  status o = filled \/ status o = cancelled \/ status o = rejected.

(** A newly constructed order: nothing filled, status [open]. *)
Definition new_order (o : Order Z) : Prop :=
  status o = open /\ filled_quantity o = 0 /\ 0 < quantity o.

(** The use the engine makes of the three operations: it fills an order that
    is open by a positive quantity within what remains, and rejects an order
    that is open. *)
Definition op_allowed (o : Order Z) (op : OrderOp Z) : Prop :=
  match op with
  | OpFill q => is_open o = true /\ 0 < q <= remaining_quantity o
  | OpCancel => True
  | OpReject _ => is_open o = true
  end.

Fixpoint ops_allowed (o : Order Z) (ops : list (OrderOp Z)) : Prop :=
  match ops with
  | [] => True
  | op :: ops' => op_allowed o op /\ ops_allowed (apply_op o op) ops'
  end.

(** The invariants of the data model, as the specification words them. *)
Definition status_matches_fill (o : Order Z) : Prop :=
  filled_quantity o <= quantity o /\
  (status o = filled <-> filled_quantity o = quantity o) /\
  (status o = partially_filled <-> 0 < filled_quantity o < quantity o).

(** Orders resting in a ladder. *)
Definition in_ladder (ld : Ladder Z) (p : Z) (l : loc) : Prop :=
  exists q, (p, q) ∈ levels ld /\ l ∈ q.

Definition ladder_locs (ld : Ladder Z) : list loc :=
  mjoin (snd <$> levels ld).

Definition ladder_of (s : Side) (b : OrderBook Z) : Ladder Z :=
  match s with
  | buy => bidLadder b
  | sell => askLadder b
  end.

Definition opposite (s : Side) : Side :=
  match s with
  | buy => sell
  | sell => buy
  end.

Definition resident (b : OrderBook Z) (s : Side) (p : Z) (l : loc) : Prop :=
  in_ladder (ladder_of s b) p l.

Definition book_locs (b : OrderBook Z) : list loc :=
  ladder_locs (bidLadder b) ++ ladder_locs (askLadder b).

(** [desc] tells the bid ladder (prices descending) from the ask ladder. *)
Definition before (desc : bool) (a b : Z) : Prop :=
  if desc then b < a else a < b.

Definition compare_of (desc : bool) : Z -> Z -> Z :=
  if desc then descending else ascending.

Record ladder_ok (desc : bool) (ld : Ladder Z) : Prop := {
  lo_keys : NoDup (fst <$> levels ld);
  lo_prices : forall p, p ∈ prices ld <-> p ∈ fst <$> levels ld;
  lo_sorted : StronglySorted (before desc) (prices ld);
  lo_nonempty : forall p q, (p, q) ∈ levels ld -> q <> [];
}.

(** No crossed book: every bid price is below every ask price. *)
Definition uncrossed (b : OrderBook Z) : Prop :=
  forall pb pa, pb ∈ bidPrices b -> pa ∈ askPrices b -> pb < pa.

(** The shape of a book over a store: sorted ladders without empty levels,
    each resting order on its side at its price and indexed by its id, each
    index entry resting, no location twice. *)
Record book_struct (h : list (Order Z)) (b : OrderBook Z) : Prop := {
  bs_bids : ladder_ok true (bidLadder b);
  bs_asks : ladder_ok false (askLadder b);
  bs_nodup : NoDup (book_locs b);
  bs_resting : forall s p l, resident b s p l ->
    exists o, h !! l = Some o /\ side o = s /\ price o = p /\
              orders b !! order_id o = Some l;
  bs_index : forall id l, orders b !! id = Some l ->
    exists o, h !! l = Some o /\ order_id o = id /\ resident b (side o) (price o) l;
  bs_uncrossed : uncrossed b;
}.

(** Every resting order is open and has something left. *)
Definition book_live (h : list (Order Z)) (b : OrderBook Z) : Prop :=
  forall s p l o, resident b s p l -> h !! l = Some o ->
    is_open o = true /\ filled_quantity o < quantity o.

Definition book_ok (h : list (Order Z)) (b : OrderBook Z) : Prop :=
  book_struct h b /\ book_live h b.

(** An engine between two commands. *)
Definition engine_ok (e : MatchingEngine Z) : Prop :=
  book_ok (heap e) (orderBook e) /\ lock e = false /\ pendingOrders e = [].

(** Best prices of a book at rest. *)
Definition best_bid_price (b : OrderBook Z) : option Z := head (bidPrices b).
Definition best_ask_price (b : OrderBook Z) : option Z := head (askPrices b).

(** An order a client may submit to an engine: new, with an id that names no
    resting order. *)
Definition submittable (e : MatchingEngine Z) (o : Order Z) : Prop :=
  new_order o /\ orders (orderBook e) !! order_id o = None.

Definition submitted_ids (cs : list (Command Z)) : list string :=
  omap (fun c => match c with Submit o => Some (order_id o) | Cancel _ => None end) cs.

(** A run of commands whose submitted orders are new and carry distinct ids. *)
Definition commands_ok (cs : list (Command Z)) : Prop :=
  NoDup (submitted_ids cs) /\
  forall o, Submit o ∈ cs -> new_order o.

(** A store [h'] that has the objects of [h] with their identifying fields:
    the operations on orders write [filled_quantity] and [status] only. *)
Definition keeps_identity (h h' : list (Order Z)) : Prop :=
  forall l o, h !! l = Some o ->
    exists o', h' !! l = Some o' /\ order_id o' = order_id o /\
               side o' = side o /\ price o' = price o.

(** The matching loop seen from the incoming order, whatever its side: the
    ladder it trades against, the best resting order there, the test that
    ends a limit order's loop, and the trade it executes. *)
Definition opp_ladder (s : Side) (b : OrderBook Z) : Ladder Z :=
  ladder_of (opposite s) b.

Definition best_opposite (s : Side) (b : OrderBook Z) : option loc :=
  match s with
  | buy => getBestAsk b
  | sell => getBestBid b
  end.

Definition no_cross (s : Side) (o r : Order Z) : bool :=
  match s with
  | buy => price o <? price r
  | sell => price r <? price o
  end.

Definition exec (s : Side) (order best : loc) (p q : Z) (e : MatchingEngine Z)
    : MatchingEngine Z :=
  match s with
  | buy => _executeTrade order best p q e
  | sell => _executeTrade best order p q e
  end.

(** The trade between an incoming order [o] of side [s] and a resting [r]. *)
Definition trade_for (s : Side) (instr : string) (o r : Order Z) (p q : Z) : Trade Z :=
  match s with
  | buy => mkTrade (order_id o) (order_id r) instr p q
  | sell => mkTrade (order_id r) (order_id o) instr p q
  end.

(** An incoming order while it is being matched: open with something left,
    or just filled. *)
Definition taker_state (o : Order Z) : Prop :=
  (is_open o = true /\ filled_quantity o < quantity o) \/
  (status o = filled /\ filled_quantity o = quantity o).

(** The engine inside a matching loop: a good book, and the incoming order
    at [order] outside of it. *)
Definition loop_ok (order : loc) (e : MatchingEngine Z) : Prop :=
  book_ok (heap e) (orderBook e) /\
  exists o, heap e !! order = Some o /\ taker_state o /\
            (order ∉ book_locs (orderBook e)) /\
            orders (orderBook e) !! order_id o = None.

(** How a matching loop ends for the incoming order [o]: nothing left,
    nothing to trade against, or (limit orders) no price that crosses. *)
Definition loop_done (s : Side) (limit_check : bool) (o : Order Z) (b : OrderBook Z)
    : Prop :=
  remaining_quantity o <= 0 \/
  prices (opp_ladder s b) = [] \/
  (limit_check = true /\
   forall p, p ∈ prices (opp_ladder s b) ->
     match s with buy => price o < p | sell => p < price o end).

Definition sum_quantities (ts : list (Trade Z)) : Z :=
  foldr (fun t acc => trade_quantity t + acc) 0 ts.

(** The fields no operation writes. *)
Definition same_static (o o' : Order Z) : Prop :=
  order_id o' = order_id o /\ client_id o' = client_id o /\
  instrument o' = instrument o /\ side o' = side o /\ type o' = type o /\
  price o' = price o /\ quantity o' = quantity o.

(** What [_matchOrder] does once the loop has ended in [e1]: a market order
    with something left is rejected, and the order is added to the book if
    it is open then. *)
Definition after_loop (order : loc) (e1 : MatchingEngine Z) : MatchingEngine Z :=
  match heap e1 !! order with
  | None => e1
  | Some o1 =>
      let e2 :=
        match type o1 with
        | market =>
            if 0 <? remaining_quantity o1 then
              let o2 := reject "Insufficient liquidity" o1 in
              push_calls [OnOrderUpdate o2] (set_heap (<[order := o2]> (heap e1)) e1)
            else e1
        | limit => e1
        end in
      match heap e2 !! order with
      | None => e2
      | Some o2 =>
          if is_open o2 then
            push_calls [OnOrderUpdate o2]
              (set_orderBook (addOrder order o2 (orderBook e2)) e2)
          else e2
      end
  end.

(** What a matching loop started in [e0] never changes, and the direction in
    which the rest moves: objects keep their static fields, resting orders
    and index entries only leave, trades are only added. *)
Definition loop_base (e0 e : MatchingEngine Z) : Prop :=
  lock e = lock e0 /\ pendingOrders e = pendingOrders e0 /\
  engine_instrument e = engine_instrument e0 /\
  length (heap e) = length (heap e0) /\
  (forall l o, heap e !! l = Some o ->
     exists o0, heap e0 !! l = Some o0 /\ same_static o0 o) /\
  (forall s p l, resident (orderBook e) s p l -> resident (orderBook e0) s p l) /\
  (forall id, is_Some (orders (orderBook e) !! id) ->
     is_Some (orders (orderBook e0) !! id)) /\
  exists ts, trades e = (trades e0 ++ ts)%list.

(** Time priority: [la] stands before [lb] in the queue of a price level. *)
Definition ahead (level : list loc) (la lb : loc) : Prop :=
  exists i j, (i < j)%nat /\ level !! i = Some la /\ level !! j = Some lb.

(** The level of price [p] on side [s] of a book; no level is an empty
    queue. *)
Definition level_of (b : OrderBook Z) (s : Side) (p : Z) : list loc :=
  default [] (map_get p (levels (ladder_of s b))).

(** The id of the resting order (the maker) in a trade made by an incoming
    order of side [s]. *)
Definition maker_id (s : Side) (t : Trade Z) : string :=
  match s with
  | buy => sell_order_id t
  | sell => buy_order_id t
  end.

(** ** Exact values of binary64 numbers *)

(** The rational a finite double stands for; [None] for NaN and the
    infinities. *)
Definition float_exact (x : float) : option Q :=
  match Prim2SF x with
  | S754_zero _ => Some 0%Q
  | S754_finite sign m ex =>
      Some ((if sign then -1 else 1) * (Zpos m # 1) * Qpower 2 ex)%Q
  | _ => None
  end.

(** The sum of the exact values of a list of doubles. *)
Definition exact_sum (qs : list float) : option Q :=
  foldr (fun q acc =>
           match float_exact q, acc with
           | Some a, Some b => Some (a + b)%Q
           | _, _ => None
           end) (Some 0%Q) qs.

(** The claim of exact arithmetic on one order: after the fills [qs] of an
    order with nothing filled, [filled_quantity] is exactly their sum. *)
Definition fills_exact (o : Order float) (qs : list float) : Prop :=
  match float_exact (filled_quantity (apply_ops (OpFill <$> qs) o)), exact_sum qs with
  | Some a, Some b => (a == b)%Q
  | _, _ => False
  end.

(** ** Recovery *)

(** The engine [_loadOpenOrders] builds from the rows it is given. *)
Definition rebuild (rows : list (Order Z)) : MatchingEngine Z :=
  fold_left load_row rows (newEngine defaultInstrument).

(** An order of side [s] at price [p]. *)
Definition at_level (s : Side) (p : Z) (r : Order Z) : bool :=
  bool_decide (side r = s) && (price r =? p).

(** The orders a queue of locations stands for. *)
Definition queue_orders (h : list (Order Z)) (level : list loc) : list (Order Z) :=
  omap (fun l => h !! l) level.

(** The positions, from [i] on, of the rows that satisfy [f]. *)
Fixpoint positions (f : Order Z -> bool) (i : nat) (rows : list (Order Z)) : list nat :=
  match rows with
  | [] => []
  | r :: rows' => if f r then i :: positions f (S i) rows' else positions f (S i) rows'
  end.

(** The record store is up to date with the book of [e0] and insertion
    order is [created_at] order: the queue of every level holds the rows of
    that side and price (the open rows in [created_at] order), in order. *)
Definition mirrors (e0 : MatchingEngine Z) (rows : list (Order Z)) : Prop :=
  forall s p,
    queue_orders (heap e0) (level_of (orderBook e0) s p) = List.filter (at_level s p) rows.

(** The best order of a side. *)
Definition best_order (e : MatchingEngine Z) (s : Side) : option (Order Z) :=
  l ← ladder_best (ladder_of s (orderBook e)); heap e !! l.

Definition ladders_ok (b : OrderBook Z) : Prop :=
  ladder_ok true (bidLadder b) /\ ladder_ok false (askLadder b).

(** Every location in a queue of the book holds an object. *)
Definition valid_levels (e : MatchingEngine Z) : Prop :=
  forall s p l, l ∈ level_of (orderBook e) s p -> is_Some (heap e !! l).

(** ** Predicates on the trades of one incoming order *)

(** A trade price that an order of side [s] with limit price [p] accepts. *)
Definition within_limit (s : Side) (p tp : Z) : Prop :=
  match s with
  | buy => tp <= p
  | sell => p <= tp
  end.

(** [p2] is no better than [p1] for an incoming order of side [s]. *)
Definition no_better (s : Side) (p1 p2 : Z) : Prop :=
  match s with
  | buy => p1 <= p2
  | sell => p2 <= p1
  end.

(** What the matching loop keeps true of the trades [ts] made so far for the
    incoming order at [order]. *)
Definition sweep_inv (e : MatchingEngine Z) (o : Order Z) (e1 : MatchingEngine Z) : Prop :=
  exists o1 ts,
    heap e1 !! length (heap e) = Some o1 /\
    trades e1 = (trades e ++ ts)%list /\
    filled_quantity o1 = sum_quantities ts /\
    Forall (fun t => 0 < trade_quantity t /\ trade_instrument t = engine_instrument e) ts /\
    (type o = limit ->
     Forall (fun t => within_limit (side o) (price o) (trade_price t)) ts) /\
    StronglySorted (no_better (side o)) (trade_price <$> ts) /\
    Forall (fun t => forall p, p ∈ prices (opp_ladder (side o) (orderBook e1)) ->
                               no_better (side o) (trade_price t) p) ts.


(** A book at rest used to try the properties on: sells A (5 at 70000) and
    B (5 at 70500), and the buy D (5 at 69000). *)
Definition resting_orders : list (Command Z) :=
  [Submit (mkOrder "A" "c1" "BTC-USD" sell limit 70000 5 0 open None 1);
   Submit (mkOrder "B" "c2" "BTC-USD" sell limit 70500 5 0 open None 2);
   Submit (mkOrder "D" "c3" "BTC-USD" buy limit 69000 5 0 open None 3)].

Definition resting_engine : MatchingEngine Z :=
  default (newEngine "BTC-USD") (run_commands 5 resting_orders (newEngine "BTC-USD")).

(** ** The depth of the book *)

(** The quantity on offer at price [p] on side [s]: what [getSnapshot]
    reports as the quantity of that level. *)
Definition depth (e : MatchingEngine Z) (s : Side) (p : Z) : Z :=
  level_total (heap e) (level_of (orderBook e) s p).

(** What the object at [l] has left. *)
Definition remaining_at (h : list (Order Z)) (l : loc) : Z :=
  match h !! l with
  | Some o => remaining_quantity o
  | None => 0
  end.

(** The levels a snapshot lists for side [s]. *)
Definition side_levels (s : Side) (snap : Snapshot Z) : list (SnapshotLevel Z) :=
  match s with
  | buy => snapshot_bids snap
  | sell => snapshot_asks snap
  end.

(** ** Accounting of fills against trades *)

(** The sum of a weight over the objects of a store. *)
Definition wsum (w : Order Z -> Z) (h : list (Order Z)) : Z :=
  foldr (fun o acc => w o + acc) 0 h.

(** What the orders of side [s] have filled. *)
Definition filled_on (s : Side) (h : list (Order Z)) : Z :=
  wsum (fun o => if decide (side o = s) then filled_quantity o else 0) h.

(** What the orders with id [id] have filled. *)
Definition filled_by (id : string) (h : list (Order Z)) : Z :=
  wsum (fun o => if String.eqb (order_id o) id then filled_quantity o else 0) h.

(** The quantity traded under the id [id], buying or selling. *)
Definition traded (id : string) (ts : list (Trade Z)) : Z :=
  foldr (fun t acc =>
           (if String.eqb (buy_order_id t) id || String.eqb (sell_order_id t) id
            then trade_quantity t else 0) + acc) 0 ts.

(** Fills and trades agree: on each side the fills add up to the traded
    volume, and under each id the fills add up to the quantity traded under
    it; the objects of the store carry distinct ids, all in [seen]. *)
Definition balanced (seen : list string) (e : MatchingEngine Z) : Prop :=
  NoDup (order_id <$> heap e) /\
  (forall o, o ∈ heap e -> order_id o ∈ seen) /\
  filled_on buy (heap e) = sum_quantities (trades e) /\
  filled_on sell (heap e) = sum_quantities (trades e) /\
  forall id, filled_by id (heap e) = traded id (trades e).

#[local] Close Scope string_scope.

(** * Proofs *)

(** ** The number interface at [Z] *)

Ltac znum :=
  cbn [nzero nadd nsub nltb nleb neqb nsame nmin ZNum] in *.

(** Turns the boolean tests of the model at [Z] into propositions. *)
Ltac zbool :=
  znum;
  repeat match goal with
  | H : (_ <? _) = true |- _ => apply Z.ltb_lt in H
  | H : (_ <? _) = false |- _ => apply Z.ltb_ge in H
  | H : (_ <=? _) = true |- _ => apply Z.leb_le in H
  | H : (_ <=? _) = false |- _ => apply Z.leb_gt in H
  | H : (_ =? _) = true |- _ => apply Z.eqb_eq in H
  | H : (_ =? _) = false |- _ => apply Z.eqb_neq in H
  end.

(** ** [Map] as a list of entries *)

Section PriceMapFacts.
Implicit Types (m : list (Z * list nat)) (k p : Z) (v q : list nat).

Lemma map_get_elem m k v : map_get k m = Some v -> (k, v) ∈ m.
Proof.
  induction m as [|[k' v'] m IH]; simpl; [done|].
  znum. destruct (k' =? k) eqn:E; zbool.
  - intros [= ->]. subst. left.
  - intros Hg. right. auto.
Qed.

Lemma map_get_None m k : map_get k m = None <-> k ∉ fst <$> m.
Proof.
  induction m as [|[k' v'] m IH]; simpl.
  - split; [intros _; apply not_elem_of_nil | reflexivity].
  - znum. destruct (k' =? k) eqn:E; zbool.
    + subst. split; [done|]. intros Hn. exfalso. apply Hn. left.
    + rewrite IH. rewrite not_elem_of_cons. naive_solver.
Qed.

Lemma map_get_split m k v :
  map_get k m = Some v ->
  exists m1 m2, m = m1 ++ (k, v) :: m2 /\ (k ∉ fst <$> m1) /\
    (forall v', map_set k v' m = m1 ++ (k, v') :: m2) /\
    map_delete k m = m1 ++ m2.
Proof.
  induction m as [|[k' v'] m IH]; simpl; [done|].
  znum. destruct (k' =? k) eqn:E; zbool.
  - intros [= ->]. subst. exists [], m. simpl. repeat split; auto. apply not_elem_of_nil.
  - intros Hg. destruct (IH Hg) as (m1 & m2 & -> & Hn & Hs & Hd).
    exists ((k', v') :: m1), m2. simpl. repeat split.
    + rewrite not_elem_of_cons. auto.
    + intros v0. by rewrite Hs.
    + by rewrite Hd.
Qed.

Lemma map_get_Some m k v : NoDup (fst <$> m) -> (k, v) ∈ m -> map_get k m = Some v.
Proof.
  induction m as [|[k' v'] m IH]; simpl; intros Hnd Hin.
  - by apply elem_of_nil in Hin.
  - apply NoDup_cons in Hnd as [Hk Hnd]. znum.
    apply elem_of_cons in Hin as [[= -> ->]|Hin].
    + by rewrite Z.eqb_refl.
    + destruct (k' =? k) eqn:E; zbool; [|auto].
      subst. exfalso. apply Hk. apply list_elem_of_fmap. by exists (k, v).
Qed.

Lemma map_set_new m k v : map_get k m = None -> map_set k v m = m ++ [(k, v)].
Proof.
  induction m as [|[k' v'] m IH]; simpl; [done|].
  znum. destruct (k' =? k); [done|]. intros Hg. by rewrite IH.
Qed.

Lemma map_has_false m k : map_has k m = false <-> map_get k m = None.
Proof. unfold map_has. destruct (map_get k m); split; congruence. Qed.

End PriceMapFacts.

(** ** Sorting the price arrays *)

Section SortFacts.
Implicit Types (ps : list Z) (d : bool).

Lemma compare_of_neg d a b : nltb (compare_of d a b) nzero = true <-> before d a b.
Proof.
  destruct d; unfold compare_of, before, descending, ascending; znum;
    rewrite Z.ltb_lt; lia.
Qed.

Lemma sort_insert_elem d x ps y : y ∈ sort_insert (compare_of d) x ps <-> y = x \/ y ∈ ps.
Proof.
  induction ps as [|z ps IH]; simpl.
  - rewrite list_elem_of_singleton, elem_of_nil. intuition.
  - case_match; rewrite ?elem_of_cons, ?IH, ?elem_of_cons; intuition.
Qed.

Lemma sort_insert_sorted d x ps :
  StronglySorted (before d) ps -> x ∉ ps ->
  StronglySorted (before d) (sort_insert (compare_of d) x ps).
Proof.
  induction ps as [|z ps IH]; simpl; intros Hs Hx.
  - repeat constructor.
  - apply StronglySorted_inv in Hs as [Hs Hz].
    apply not_elem_of_cons in Hx as [Hxz Hx].
    znum. destruct (compare_of d x z <? 0) eqn:E.
    + apply (compare_of_neg d) in E.
      constructor; [constructor; auto|].
      constructor; [done|].
      rewrite Forall_forall in Hz |- *. intros y Hy. specialize (Hz y Hy).
      destruct d; unfold before in *; lia.
    + constructor; [auto|].
      rewrite Forall_forall in Hz |- *. intros y Hy.
      apply sort_insert_elem in Hy as [->|Hy]; [|auto].
      assert (~ before d x z) as Hn by (rewrite <- compare_of_neg; znum; congruence).
      destruct d; unfold before in *; lia.
Qed.

Lemma sort_insert_last d x ps :
  Forall (fun y => before d y x) ps -> sort_insert (compare_of d) x ps = ps ++ [x].
Proof.
  induction ps as [|z ps IH]; simpl; intros Hf; [done|].
  apply Forall_cons in Hf as [Hz Hf].
  znum. destruct (compare_of d x z <? 0) eqn:E.
  - apply (compare_of_neg d) in E. destruct d; unfold before in *; lia.
  - by rewrite IH.
Qed.

Lemma js_sort_snoc d ps x :
  js_sort (compare_of d) (ps ++ [x]) = sort_insert (compare_of d) x (js_sort (compare_of d) ps).
Proof. unfold js_sort. by rewrite fold_left_app. Qed.

Lemma StronglySorted_snoc_inv d ps x :
  StronglySorted (before d) (ps ++ [x]) ->
  StronglySorted (before d) ps /\ Forall (fun y => before d y x) ps.
Proof.
  induction ps as [|z ps IH]; simpl; intros Hs.
  - split; constructor.
  - apply StronglySorted_inv in Hs as [Hs Hz].
    destruct (IH Hs) as [Hs' Hf]. split.
    + constructor; [done|]. apply Forall_app in Hz. tauto.
    + constructor; [|done]. apply Forall_app in Hz as [_ Hz].
      by apply Forall_inv in Hz.
Qed.

Lemma js_sort_sorted d ps :
  StronglySorted (before d) ps -> js_sort (compare_of d) ps = ps.
Proof.
  induction ps as [|x ps IH] using rev_ind; [done|].
  intros Hs. apply StronglySorted_snoc_inv in Hs as [Hs Hf].
  rewrite js_sort_snoc, IH by done. by apply sort_insert_last.
Qed.

Lemma js_sort_push d ps x :
  StronglySorted (before d) ps ->
  js_sort (compare_of d) (ps ++ [x]) = sort_insert (compare_of d) x ps.
Proof. intros Hs. by rewrite js_sort_snoc, js_sort_sorted. Qed.

End SortFacts.

(** ** Ladders *)

Section LadderFacts.
Implicit Types (m : list (Z * list nat)) (k p : Z) (v q : list nat) (ld : Ladder Z)
  (d : bool) (l : nat) (o : Order Z) (h : list (Order Z)).

Lemma map_get_snoc m k v : map_get k m = None -> map_get k (m ++ [(k, v)]) = Some v.
Proof.
  induction m as [|[k' v'] m IH]; simpl; znum.
  - by rewrite Z.eqb_refl.
  - destruct (k' =? k); [done|auto].
Qed.

Lemma map_set_snoc m k v v' :
  map_get k m = None -> map_set k v' (m ++ [(k, v)]) = m ++ [(k, v')].
Proof.
  induction m as [|[k' v0] m IH]; simpl; znum.
  - by rewrite Z.eqb_refl.
  - destruct (k' =? k); [done|]. intros Hg. by rewrite IH.
Qed.

Lemma ladder_locs_app m1 m2 :
  mjoin (snd <$> (m1 ++ m2)) = mjoin (snd <$> m1) ++ mjoin (snd <$> m2).
Proof. by rewrite fmap_app, join_app. Qed.

Lemma in_ladder_locs ld l : l ∈ ladder_locs ld <-> exists p, in_ladder ld p l.
Proof.
  unfold ladder_locs, in_ladder. rewrite list_elem_of_join. split.
  - intros (q & Hl & Hq). apply list_elem_of_fmap in Hq as ([p q'] & -> & Hin).
    by exists p, q'.
  - intros (p & q & Hin & Hl). exists q. split; [done|].
    apply list_elem_of_fmap. by exists (p, q).
Qed.

(** What [ladder_add] does to a well-formed ladder. *)
Lemma ladder_add_cases d l o ld :
  ladder_ok d ld ->
  (map_get (price o) (levels ld) = None /\
   ladder_add (compare_of d) l o ld =
     mkLadder (levels ld ++ [(price o, [l])])
              (sort_insert (compare_of d) (price o) (prices ld))) \/
  (exists q m1 m2,
     map_get (price o) (levels ld) = Some q /\
     levels ld = m1 ++ (price o, q) :: m2 /\
     ladder_add (compare_of d) l o ld =
       mkLadder (m1 ++ (price o, q ++ [l]) :: m2) (prices ld)).
Proof.
  intros Hok. unfold ladder_add. cbv zeta.
  destruct (map_get (price o) (levels ld)) as [q|] eqn:Hg.
  - right. assert (map_has (price o) (levels ld) = true) as ->.
    { unfold map_has. by rewrite Hg. }
    simpl. rewrite Hg.
    destruct (map_get_split _ _ _ Hg) as (m1 & m2 & Hm & _ & Hs & _).
    exists q, m1, m2. by rewrite Hs.
  - left. split; [done|].
    assert (map_has (price o) (levels ld) = false) as -> by by apply map_has_false.
    simpl. rewrite map_set_new by done. rewrite map_get_snoc by done.
    rewrite map_set_snoc by done. f_equal.
    apply js_sort_push. apply Hok.
Qed.

Lemma ladder_add_ok d l o ld :
  ladder_ok d ld -> ladder_ok d (ladder_add (compare_of d) l o ld).
Proof.
  intros Hok.
  destruct (ladder_add_cases d l o ld Hok) as [[Hg ->]|(q & m1 & m2 & Hg & Hm & ->)];
    destruct Hok as [Hk Hp Hs Hne].
  - apply map_get_None in Hg. constructor; simpl.
    + rewrite fmap_app. simpl. apply NoDup_app. split; [done|]. split.
      * intros x Hx Hx'. apply list_elem_of_singleton in Hx'. by subst.
      * apply NoDup_singleton.
    + intros p. rewrite sort_insert_elem, fmap_app, elem_of_app, Hp. simpl.
      rewrite list_elem_of_singleton. tauto.
    + apply sort_insert_sorted; [done|]. by rewrite Hp.
    + intros p q Hin. apply elem_of_app in Hin as [Hin|Hin]; [by eapply Hne|].
      apply list_elem_of_singleton in Hin. by inversion Hin.
  - rewrite Hm in *. constructor; simpl.
    + revert Hk. by rewrite !fmap_app.
    + intros p. rewrite Hp. by rewrite !fmap_app.
    + done.
    + intros p q' Hin. rewrite elem_of_app, elem_of_cons in Hin.
      destruct Hin as [Hin|[[= -> ->]|Hin]].
      * apply (Hne p). rewrite elem_of_app. by left.
      * by destruct q.
      * apply (Hne p). rewrite elem_of_app, elem_of_cons. auto.
Qed.

Lemma ladder_add_in d l o ld p l' :
  ladder_ok d ld ->
  in_ladder (ladder_add (compare_of d) l o ld) p l' <->
  in_ladder ld p l' \/ (p = price o /\ l' = l).
Proof.
  intros Hok. unfold in_ladder.
  destruct (ladder_add_cases d l o ld Hok) as [[Hg ->]|(q & m1 & m2 & Hg & Hm & ->)];
    simpl.
  - split.
    + intros (q & Hin & Hl). apply elem_of_app in Hin as [Hin|Hin]; [left; eauto|].
      apply list_elem_of_singleton in Hin. inversion Hin; subst.
      apply list_elem_of_singleton in Hl. auto.
    + intros [(q & Hin & Hl)|[-> ->]].
      * exists q. rewrite elem_of_app. auto.
      * exists [l]. rewrite elem_of_app, !list_elem_of_singleton. auto.
  - rewrite Hm. split.
    + intros (q' & Hin & Hl). rewrite elem_of_app, elem_of_cons in Hin.
      destruct Hin as [Hin|[[= -> ->]|Hin]].
      * left. exists q'. rewrite elem_of_app. auto.
      * apply elem_of_app in Hl as [Hl|Hl].
        -- left. exists q. rewrite elem_of_app, elem_of_cons. auto.
        -- apply list_elem_of_singleton in Hl. auto.
      * left. exists q'. rewrite elem_of_app, elem_of_cons. auto.
    + intros [(q' & Hin & Hl)|[-> ->]].
      * rewrite elem_of_app, elem_of_cons in Hin.
        destruct Hin as [Hin|[[= -> ->]|Hin]].
        -- exists q'. rewrite elem_of_app. auto.
        -- exists (q ++ [l]). rewrite !elem_of_app, elem_of_cons. auto.
        -- exists q'. rewrite elem_of_app, elem_of_cons. auto.
      * exists (q ++ [l]). rewrite !elem_of_app, elem_of_cons, list_elem_of_singleton. auto.
Qed.

Lemma ladder_add_locs d l o ld :
  ladder_ok d ld ->
  ladder_locs (ladder_add (compare_of d) l o ld) ≡ₚ l :: ladder_locs ld.
Proof.
  intros Hok. unfold ladder_locs.
  destruct (ladder_add_cases d l o ld Hok) as [[Hg ->]|(q & m1 & m2 & Hg & Hm & ->)];
    simpl.
  - rewrite ladder_locs_app. simpl. by rewrite <- Permutation_cons_append.
  - rewrite Hm, !ladder_locs_app. simpl.
    rewrite <- (assoc_L (++) q [l]). simpl.
    rewrite !(assoc_L (++) (mjoin (snd <$> m1)) q).
    symmetry. apply Permutation_middle.
Qed.

Lemma ladder_add_prices d l o ld p :
  ladder_ok d ld ->
  p ∈ prices (ladder_add (compare_of d) l o ld) <-> p ∈ prices ld \/ p = price o.
Proof.
  intros Hok.
  destruct (ladder_add_cases d l o ld Hok) as [[Hg ->]|(q & m1 & m2 & Hg & Hm & ->)];
    simpl.
  - rewrite sort_insert_elem. tauto.
  - split; [auto|]. intros [?| ->]; [done|].
    apply Hok. rewrite Hm, fmap_app. simpl. rewrite elem_of_app, elem_of_cons. auto.
Qed.

(** Time priority: the order joins its level at the tail. *)
Lemma ladder_add_level d l o ld :
  ladder_ok d ld ->
  map_get (price o) (levels (ladder_add (compare_of d) l o ld)) =
    Some (default [] (map_get (price o) (levels ld)) ++ [l]).
Proof.
  intros Hok.
  destruct (ladder_add_cases d l o ld Hok) as [[Hg ->]|(q & m1 & m2 & Hg & Hm & Heq)].
  - simpl. rewrite Hg. simpl. by apply map_get_snoc.
  - rewrite Hg. simpl. pose proof (ladder_add_ok d l o ld Hok) as Hok'.
    apply map_get_Some; [apply Hok'|]. rewrite Heq. simpl.
    rewrite elem_of_app, elem_of_cons. auto.
Qed.

Lemma findIndex_Some {A} (f : A -> bool) (q : list A) i :
  findIndex f q = Some i -> exists x, q !! i = Some x /\ f x = true.
Proof.
  revert i. induction q as [|y q IH]; simpl; [done|]. intros i.
  destruct (f y) eqn:E.
  - intros [= <-]. eauto.
  - destruct (findIndex f q) as [j|]; simpl; [|done].
    intros [= <-]. simpl. by apply IH.
Qed.

Lemma findIndex_found {A} (f : A -> bool) (q : list A) x :
  x ∈ q -> f x = true -> (forall y, y ∈ q -> f y = true -> y = x) ->
  exists i, findIndex f q = Some i /\ q !! i = Some x.
Proof.
  induction q as [|y q IH]; simpl; intros Hin Hf Hu.
  - by apply elem_of_nil in Hin.
  - destruct (f y) eqn:E.
    + exists 0%nat. split; [done|]. simpl. f_equal. apply Hu; [left|done].
    + apply elem_of_cons in Hin as [->|Hin]; [congruence|].
      destruct IH as (i & -> & Hi); [done..| |].
      * intros z Hz. apply Hu. by right.
      * exists (S i). done.
Qed.

Lemma StronglySorted_filter {A} (R : relation A) (P : A -> Prop)
    `{forall x, Decision (P x)} (l : list A) :
  StronglySorted R l -> StronglySorted R (filter P l).
Proof.
  induction 1 as [|x l Hs IH Hf]; [constructor|].
  rewrite filter_cons. destruct (decide (P x)); [|done].
  constructor; [done|]. rewrite Forall_forall in Hf |- *.
  intros y Hy. apply list_elem_of_filter in Hy as [_ Hy]. auto.
Qed.

Lemma filter_neqb_elem (ps : list Z) p p' :
  p' ∈ filter (fun x => negb (neqb x p) = true) ps <-> p' ∈ ps /\ p' <> p.
Proof.
  rewrite list_elem_of_filter. znum. rewrite negb_true_iff, Z.eqb_neq. tauto.
Qed.

(** What [ladder_remove] does when the order is found at index [i] of its
    level. *)
Lemma ladder_remove_cases h o ld q i :
  map_get (price o) (levels ld) = Some q ->
  findIndex (same_order_id h (order_id o)) q = Some i ->
  exists m1 m2,
    levels ld = m1 ++ (price o, q) :: m2 /\
    ladder_remove h o ld =
      match delete i q with
      | [] => mkLadder (m1 ++ m2)
                (filter (fun x => negb (neqb x (price o)) = true) (prices ld))
      | _ => mkLadder (m1 ++ (price o, delete i q) :: m2) (prices ld)
      end.
Proof.
  intros Hg Hf. unfold ladder_remove. cbv zeta. rewrite Hg, Hf.
  destruct (map_get_split _ _ _ Hg) as (m1 & m2 & Hm & _ & Hs & Hd).
  exists m1, m2. split; [done|]. rewrite Hd, Hs. done.
Qed.

Lemma ladder_remove_unchanged h o ld :
  (map_get (price o) (levels ld) = None \/
   exists q, map_get (price o) (levels ld) = Some q /\
             findIndex (same_order_id h (order_id o)) q = None) ->
  ladder_remove h o ld = ld.
Proof.
  unfold ladder_remove. cbv zeta. intros [->|(q & -> & ->)]; done.
Qed.

Lemma NoDup_keys_middle m1 m2 p q :
  NoDup (fst <$> (m1 ++ (p, q) :: m2)) ->
  NoDup (fst <$> (m1 ++ m2)) /\ (p ∉ fst <$> (m1 ++ m2)).
Proof.
  rewrite !fmap_app, fmap_cons. simpl. intros Hnd.
  apply NoDup_app in Hnd as (H1 & H12 & H2). apply NoDup_cons in H2 as [Hp H2].
  split.
  - apply NoDup_app. split; [done|]. split; [|done].
    intros x Hx Hx'. apply (H12 x Hx). by right.
  - rewrite elem_of_app. intros [Hin|Hin]; [|done].
    apply (H12 p Hin). left.
Qed.

Lemma ladder_remove_ok d h o ld :
  ladder_ok d ld -> ladder_ok d (ladder_remove h o ld).
Proof.
  intros Hok.
  destruct (map_get (price o) (levels ld)) as [q|] eqn:Hg;
    [|rewrite ladder_remove_unchanged; auto].
  destruct (findIndex (same_order_id h (order_id o)) q) as [i|] eqn:Hf;
    [|rewrite ladder_remove_unchanged; eauto].
  destruct (ladder_remove_cases h o ld q i Hg Hf) as (m1 & m2 & Hm & ->).
  destruct Hok as [Hk Hp Hs Hne]. rewrite Hm in *.
  destruct (NoDup_keys_middle _ _ _ _ Hk) as [Hk' Hpn].
  destruct (delete i q) as [|x q'] eqn:Hdel.
  - constructor; simpl.
    + done.
    + intros p. rewrite filter_neqb_elem, Hp.
      rewrite !fmap_app, fmap_cons, !elem_of_app, elem_of_cons. simpl.
      rewrite fmap_app, elem_of_app in Hpn. split; [tauto|].
      intros Hin. split; [tauto|]. intros ->. tauto.
    + by apply StronglySorted_filter.
    + intros p q0 Hin. apply (Hne p). rewrite elem_of_app, elem_of_cons.
      apply elem_of_app in Hin. tauto.
  - constructor; simpl.
    + revert Hk. by rewrite !fmap_app.
    + intros p. rewrite Hp. by rewrite !fmap_app.
    + done.
    + intros p q0 Hin. rewrite elem_of_app, elem_of_cons in Hin.
      destruct Hin as [Hin|[[= -> ->]|Hin]]; [|done|].
      * apply (Hne p). rewrite elem_of_app. auto.
      * apply (Hne p). rewrite elem_of_app, elem_of_cons. auto.
Qed.

Lemma ladder_remove_prices h o ld p :
  p ∈ prices (ladder_remove h o ld) -> p ∈ prices ld.
Proof.
  unfold ladder_remove. cbv zeta. repeat case_match; simpl; try done.
  rewrite filter_neqb_elem. tauto.
Qed.

(** Removing the order found at index [i]: the other resting orders stay. *)
Lemma ladder_remove_locs h o ld q i l :
  map_get (price o) (levels ld) = Some q ->
  findIndex (same_order_id h (order_id o)) q = Some i ->
  q !! i = Some l ->
  ladder_locs ld ≡ₚ l :: ladder_locs (ladder_remove h o ld).
Proof.
  intros Hg Hf Hi.
  destruct (ladder_remove_cases h o ld q i Hg Hf) as (m1 & m2 & Hm & ->).
  pose proof (delete_Permutation q i l Hi) as Hperm.
  unfold ladder_locs. rewrite Hm. revert Hperm. generalize (delete i q).
  intros dq Hperm.
  destruct dq as [|x q']; simpl;
    rewrite !ladder_locs_app; simpl; rewrite Hperm; simpl.
  - symmetry. apply Permutation_middle.
  - symmetry. apply Permutation_middle.
Qed.

Lemma ladder_remove_in h o ld q i l p' l' :
  NoDup (ladder_locs ld) ->
  map_get (price o) (levels ld) = Some q ->
  findIndex (same_order_id h (order_id o)) q = Some i ->
  q !! i = Some l ->
  in_ladder (ladder_remove h o ld) p' l' <-> in_ladder ld p' l' /\ l' <> l.
Proof.
  intros Hnd Hg Hf Hi.
  destruct (ladder_remove_cases h o ld q i Hg Hf) as (m1 & m2 & Hm & ->).
  pose proof (delete_Permutation q i l Hi) as Hperm.
  unfold ladder_locs, in_ladder in *. rewrite Hm in *.
  rewrite !ladder_locs_app in Hnd. simpl in Hnd.
  apply NoDup_app in Hnd as (H1 & H12 & H2).
  apply NoDup_app in H2 as (Hq & Hq2 & H2).
  assert (forall x, x ∈ delete i q <-> x ∈ q /\ x <> l) as Hdq.
  { intros x. revert Hperm Hq. generalize (delete i q). intros dq Hperm Hq.
    rewrite Hperm in Hq |- *. apply NoDup_cons in Hq as [Hl Hq].
    rewrite elem_of_cons. split; [|tauto].
    intros Hx. split; [auto|]. by intros ->. }
  assert (l ∈ q) as Hlq by (by eapply list_elem_of_lookup_2).
  assert (forall pp qq, (pp, qq) ∈ m1 -> l ∉ qq) as Hm1.
  { intros pp qq Hin Hl. apply (H12 l).
    - apply list_elem_of_join. exists qq. split; [done|].
      apply list_elem_of_fmap. by exists (pp, qq).
    - rewrite elem_of_app. auto. }
  assert (forall pp qq, (pp, qq) ∈ m2 -> l ∉ qq) as Hm2.
  { intros pp qq Hin Hl. apply (Hq2 l Hlq).
    apply list_elem_of_join. exists qq. split; [done|].
    apply list_elem_of_fmap. by exists (pp, qq). }
  destruct (delete i q) as [|x q'] eqn:Hdel; simpl.
  - split.
    + intros (q0 & Hin & Hl). apply elem_of_app in Hin as [Hin|Hin].
      * split; [exists q0; rewrite elem_of_app; auto|]. intros ->. by eapply Hm1.
      * split; [exists q0; rewrite elem_of_app, elem_of_cons; auto|].
        intros ->. by eapply Hm2.
    + intros [(q0 & Hin & Hl) Hne]. rewrite elem_of_app, elem_of_cons in Hin.
      destruct Hin as [Hin|[[= -> ->]|Hin]].
      * exists q0. rewrite elem_of_app. auto.
      * exfalso. assert (l' ∈ []) as Hnil by (apply Hdq; auto).
        by apply elem_of_nil in Hnil.
      * exists q0. rewrite elem_of_app. auto.
  - split.
    + intros (q0 & Hin & Hl). rewrite elem_of_app, elem_of_cons in Hin.
      destruct Hin as [Hin|[[= -> ->]|Hin]].
      * split; [exists q0; rewrite elem_of_app; auto|]. intros ->. by eapply Hm1.
      * apply Hdq in Hl as [Hl Hne]. split; [|done].
        exists q. rewrite elem_of_app, elem_of_cons. auto.
      * split; [exists q0; rewrite elem_of_app, elem_of_cons; auto|].
        intros ->. by eapply Hm2.
    + intros [(q0 & Hin & Hl) Hne]. rewrite elem_of_app, elem_of_cons in Hin.
      destruct Hin as [Hin|[[= -> ->]|Hin]].
      * exists q0. rewrite elem_of_app. auto.
      * exists (x :: q'). rewrite elem_of_app, elem_of_cons. split; [auto|].
        apply Hdq. auto.
      * exists q0. rewrite elem_of_app, elem_of_cons. auto.
Qed.

End LadderFacts.

(** ** The book over the object store *)

Section BookFacts.
Implicit Types (b : OrderBook Z) (h : list (Order Z)) (o : Order Z) (l : nat)
  (s : Side) (p : Z) (id : string).

Lemma keeps_identity_refl h : keeps_identity h h.
Proof. intros l o Hl. eauto. Qed.

Lemma keeps_identity_trans h1 h2 h3 :
  keeps_identity h1 h2 -> keeps_identity h2 h3 -> keeps_identity h1 h3.
Proof.
  intros H12 H23 l o Hl. destruct (H12 l o Hl) as (o2 & Hl2 & ? & ? & ?).
  destruct (H23 l o2 Hl2) as (o3 & Hl3 & ? & ? & ?).
  exists o3. repeat split; congruence.
Qed.

Lemma keeps_identity_insert h l o o' :
  h !! l = Some o -> order_id o' = order_id o -> side o' = side o ->
  price o' = price o -> keeps_identity h (<[l := o']> h).
Proof.
  intros Hl Hid Hs Hp l1 o1 Hl1. destruct (decide (l1 = l)) as [->|Hne].
  - exists o'. rewrite list_lookup_insert_eq by by eapply lookup_lt_Some.
    repeat split; congruence.
  - exists o1. by rewrite list_lookup_insert_ne.
Qed.

Lemma keeps_identity_app h o : keeps_identity h (h ++ [o]).
Proof.
  intros l o1 Hl. exists o1. split; [|done]. by apply lookup_app_l_Some.
Qed.

Lemma book_struct_heap h h' b :
  keeps_identity h h' -> book_struct h b -> book_struct h' b.
Proof.
  intros Hk [Hb Ha Hnd Hr Hi Hu]. constructor; try done.
  - intros s p l Hres. destruct (Hr s p l Hres) as (o & Hl & Hs & Hp & Hidx).
    destruct (Hk l o Hl) as (o' & Hl' & Hid' & Hs' & Hp').
    exists o'. repeat split; congruence.
  - intros id l Hidx. destruct (Hi id l Hidx) as (o & Hl & Hid & Hres).
    destruct (Hk l o Hl) as (o' & Hl' & Hid' & Hs' & Hp').
    exists o'. repeat split; congruence.
Qed.

Lemma resident_locs b s p l : resident b s p l -> l ∈ book_locs b.
Proof.
  unfold resident, book_locs. intros Hin. rewrite elem_of_app, !in_ladder_locs.
  destruct s; eauto.
Qed.

Lemma book_locs_resident b l : l ∈ book_locs b -> exists s p, resident b s p l.
Proof.
  unfold resident, book_locs. rewrite elem_of_app, !in_ladder_locs.
  intros [[p Hin]|[p Hin]]; [exists buy, p|exists sell, p]; done.
Qed.

(** A resting order sits in exactly one place. *)
Lemma resident_unique h b s p l s' p' :
  book_struct h b -> resident b s p l -> resident b s' p' l -> s = s' /\ p = p'.
Proof.
  intros Hb H1 H2.
  destruct (bs_resting _ _ Hb _ _ _ H1) as (o & Hl & <- & <- & _).
  destruct (bs_resting _ _ Hb _ _ _ H2) as (o' & Hl' & <- & <- & _).
  split; congruence.
Qed.

(** [removeOrder] for an id the index does not hold: nothing changes. *)
Lemma removeOrder_absent h id b : orders b !! id = None -> removeOrder h id b = b.
Proof. unfold removeOrder. by intros ->. Qed.

Lemma ladder_of_removeBid h o b s :
  ladder_of s (removeBid h o b) =
  match s with buy => ladder_remove h o (bidLadder b) | sell => askLadder b end.
Proof. by destruct s. Qed.

Lemma ladder_of_removeAsk h o b s :
  ladder_of s (removeAsk h o b) =
  match s with buy => bidLadder b | sell => ladder_remove h o (askLadder b) end.
Proof. by destruct s. Qed.

(** [removeOrder] for a resting order: the order leaves its level and the
    index; everything else stays. *)
Lemma removeOrder_struct h id l b :
  book_struct h b -> orders b !! id = Some l ->
  book_struct h (removeOrder h id b) /\
  (forall s p l', resident (removeOrder h id b) s p l' <-> resident b s p l' /\ l' <> l) /\
  orders (removeOrder h id b) = delete id (orders b) /\
  book_locs b ≡ₚ l :: book_locs (removeOrder h id b) /\
  (forall p, p ∈ bidPrices (removeOrder h id b) -> p ∈ bidPrices b) /\
  (forall p, p ∈ askPrices (removeOrder h id b) -> p ∈ askPrices b).
Proof.
  intros Hb Hidx.
  destruct (bs_index _ _ Hb _ _ Hidx) as (o & Hl & Hid & Hres).
  pose proof Hres as (q & Hq & Hlq).
  assert (NoDup (ladder_locs (bidLadder b)) /\ NoDup (ladder_locs (askLadder b)) /\
          forall x, x ∈ ladder_locs (bidLadder b) -> x ∉ ladder_locs (askLadder b))
    as (Hndb & Hnda & Hdisj).
  { pose proof (bs_nodup _ _ Hb) as Hnd. unfold book_locs in Hnd.
    apply NoDup_app in Hnd. tauto. }
  assert (ladder_ok true (bidLadder b)) as Hokb by apply Hb.
  assert (ladder_ok false (askLadder b)) as Hoka by apply Hb.
  assert (map_get (price o) (levels (ladder_of (side o) b)) = Some q) as Hg.
  { apply map_get_Some; [|done]. destruct (side o); [apply Hokb|apply Hoka]. }
  destruct (findIndex_found (same_order_id h (order_id o)) q l) as (i & Hf & Hi);
    [done| | |].
  { unfold same_order_id. rewrite Hl. apply String.eqb_refl. }
  { intros y Hy Hfy. unfold same_order_id in Hfy.
    destruct (h !! y) as [oy|] eqn:Hy'; [|done]. apply String.eqb_eq in Hfy.
    assert (resident b (side o) (price o) y) as Hry by (by exists q).
    destruct (bs_resting _ _ Hb _ _ _ Hry) as (oy' & Hy'' & _ & _ & Hidy).
    assert (oy' = oy) as -> by congruence.
    rewrite Hfy, Hid, Hidx in Hidy. congruence. }
  unfold removeOrder. rewrite Hidx, Hl.
  destruct (side o) eqn:Hside; simpl in Hg, Hres.
  - (* a bid *)
    pose proof (ladder_remove_in h o (bidLadder b) q i l) as Hin.
    pose proof (ladder_remove_locs h o (bidLadder b) q i l Hg Hf Hi) as Hlocs.
    assert (forall s p l',
      resident (removeBid h o (mkBook (bidLadder b) (askLadder b) (delete id (orders b))))
               s p l' <-> resident b s p l' /\ l' <> l) as Hchar.
    { intros s p l'. unfold resident. rewrite ladder_of_removeBid. destruct s; simpl.
      - by apply Hin.
      - split; [|tauto]. intros Hl'. split; [done|]. intros ->.
        apply (Hdisj l); apply in_ladder_locs; eauto. }
    split; [|split; [done|split; [done|split; [|split]]]].
    + constructor; simpl.
      * by apply ladder_remove_ok.
      * done.
      * unfold book_locs. simpl. unfold book_locs in Hb.
        pose proof (bs_nodup _ _ Hb) as Hnd. unfold book_locs in Hnd.
        rewrite Hlocs in Hnd. simpl in Hnd. by apply NoDup_cons in Hnd as [_ ?].
      * intros s p l' Hr. apply Hchar in Hr as [Hr Hne].
        destruct (bs_resting _ _ Hb _ _ _ Hr) as (o' & Hl' & Hs' & Hp' & Hidx').
        exists o'. repeat split; try done. simpl.
        rewrite lookup_delete_ne; [done|]. intros Heq.
        rewrite <- Heq in Hidx'. congruence.
      * intros id' l' Hidx'. simpl in Hidx'.
        apply lookup_delete_Some in Hidx' as [Hne Hidx'].
        destruct (bs_index _ _ Hb _ _ Hidx') as (o' & Hl' & Hid' & Hr').
        exists o'. repeat split; try done. apply Hchar. split; [done|].
        intros ->. congruence.
      * intros pb pa Hpb Hpa. unfold bidPrices, askPrices in Hpb, Hpa. simpl in Hpb, Hpa.
        apply (bs_uncrossed _ _ Hb); [|done]. by eapply ladder_remove_prices.
    + unfold book_locs. simpl. by rewrite Hlocs.
    + intros p. unfold bidPrices, askPrices. simpl. apply ladder_remove_prices.
    + done.
  - (* an ask *)
    pose proof (ladder_remove_in h o (askLadder b) q i l) as Hin.
    pose proof (ladder_remove_locs h o (askLadder b) q i l Hg Hf Hi) as Hlocs.
    assert (forall s p l',
      resident (removeAsk h o (mkBook (bidLadder b) (askLadder b) (delete id (orders b))))
               s p l' <-> resident b s p l' /\ l' <> l) as Hchar.
    { intros s p l'. unfold resident. rewrite ladder_of_removeAsk. destruct s; simpl.
      - split; [|tauto]. intros Hl'. split; [done|]. intros ->.
        apply (Hdisj l); apply in_ladder_locs; eauto.
      - by apply Hin. }
    split; [|split; [done|split; [done|split; [|split]]]].
    + constructor; simpl.
      * done.
      * by apply ladder_remove_ok.
      * pose proof (bs_nodup _ _ Hb) as Hnd. unfold book_locs in Hnd |- *. simpl.
        rewrite Hlocs in Hnd. rewrite <- Permutation_middle in Hnd.
        by apply NoDup_cons in Hnd as [_ ?].
      * intros s p l' Hr. apply Hchar in Hr as [Hr Hne].
        destruct (bs_resting _ _ Hb _ _ _ Hr) as (o' & Hl' & Hs' & Hp' & Hidx').
        exists o'. repeat split; try done. simpl.
        rewrite lookup_delete_ne; [done|]. intros Heq.
        rewrite <- Heq in Hidx'. congruence.
      * intros id' l' Hidx'. simpl in Hidx'.
        apply lookup_delete_Some in Hidx' as [Hne Hidx'].
        destruct (bs_index _ _ Hb _ _ Hidx') as (o' & Hl' & Hid' & Hr').
        exists o'. repeat split; try done. apply Hchar. split; [done|].
        intros ->. congruence.
      * intros pb pa Hpb Hpa. unfold bidPrices, askPrices in Hpb, Hpa. simpl in Hpb, Hpa.
        apply (bs_uncrossed _ _ Hb); [done|]. by eapply ladder_remove_prices.
    + unfold book_locs. simpl. rewrite Hlocs. symmetry. apply Permutation_middle.
    + done.
    + intros p. unfold bidPrices, askPrices. simpl. apply ladder_remove_prices.
Qed.

Lemma ladder_of_addBid l o b s :
  ladder_of s (addBid l o b) =
  match s with buy => ladder_add descending l o (bidLadder b) | sell => askLadder b end.
Proof. by destruct s. Qed.

Lemma ladder_of_addAsk l o b s :
  ladder_of s (addAsk l o b) =
  match s with buy => bidLadder b | sell => ladder_add ascending l o (askLadder b) end.
Proof. by destruct s. Qed.

(** [addOrder] for an order that does not cross the other side. *)
Lemma addOrder_struct h l o b :
  book_struct h b -> h !! l = Some o -> l ∉ book_locs b ->
  orders b !! order_id o = None ->
  (side o = buy -> forall pa, pa ∈ askPrices b -> price o < pa) ->
  (side o = sell -> forall pb, pb ∈ bidPrices b -> pb < price o) ->
  book_struct h (addOrder l o b) /\
  (forall s p l', resident (addOrder l o b) s p l' <->
                  resident b s p l' \/ (s = side o /\ p = price o /\ l' = l)) /\
  orders (addOrder l o b) = <[order_id o := l]> (orders b).
Proof.
  intros Hb Hl Hfresh Hid Hbuy Hsell.
  assert (ladder_ok true (bidLadder b)) as Hokb by apply Hb.
  assert (ladder_ok false (askLadder b)) as Hoka by apply Hb.
  assert (forall s p l', resident (addOrder l o b) s p l' <->
            resident b s p l' \/ (s = side o /\ p = price o /\ l' = l)) as Hchar.
  { intros s p l'. unfold resident, addOrder. destruct (side o) eqn:Hside.
    - rewrite ladder_of_addBid. destruct s; simpl.
      + rewrite (ladder_add_in true) by done. naive_solver.
      + naive_solver.
    - rewrite ladder_of_addAsk. destruct s; simpl.
      + naive_solver.
      + rewrite (ladder_add_in false) by done. naive_solver. }
  assert (orders (addOrder l o b) = <[order_id o := l]> (orders b)) as Hidx.
  { unfold addOrder. by destruct (side o). }
  split; [|done]. constructor.
  - unfold addOrder. destruct (side o); simpl; [|done].
    by apply (ladder_add_ok true).
  - unfold addOrder. destruct (side o); simpl; [done|].
    by apply (ladder_add_ok false).
  - pose proof (bs_nodup _ _ Hb) as Hnd.
    assert (book_locs (addOrder l o b) ≡ₚ l :: book_locs b) as ->.
    { unfold book_locs, addOrder. destruct (side o); simpl.
      - by rewrite (ladder_add_locs true).
      - rewrite (ladder_add_locs false) by done. symmetry. apply Permutation_middle. }
    by apply NoDup_cons.
  - intros s p l' Hr. rewrite Hidx. apply Hchar in Hr as [Hr|(-> & -> & ->)].
    + destruct (bs_resting _ _ Hb _ _ _ Hr) as (o' & Hl' & Hs' & Hp' & Hidx').
      exists o'. repeat split; try done.
      rewrite lookup_insert_ne; [done|]. intros Heq. rewrite Heq in Hid. congruence.
    + exists o. repeat split; try done. by rewrite lookup_insert_eq.
  - intros id l' Hi. rewrite Hidx in Hi. apply lookup_insert_Some in Hi as [[<- <-]|[Hne Hi]].
    + exists o. repeat split; try done. apply Hchar. auto.
    + destruct (bs_index _ _ Hb _ _ Hi) as (o' & Hl' & Hid' & Hr').
      exists o'. repeat split; try done. apply Hchar. auto.
  - intros pb pa Hpb Hpa. pose proof (bs_uncrossed _ _ Hb) as Hu.
    unfold bidPrices, askPrices, addOrder in Hpb, Hpa.
    destruct (side o) eqn:Hside; simpl in Hpb, Hpa.
    + apply (proj1 (ladder_add_prices true l o _ pb Hokb)) in Hpb as [Hpb| ->]; auto.
    + apply (proj1 (ladder_add_prices false l o _ pa Hoka)) in Hpa as [Hpa| ->]; auto.
Qed.

End BookFacts.

(** ** Orders at exact quantities *)

Section OrderFacts.
Implicit Types (o : Order Z) (q : Z).

Lemma fill_fields o q :
  order_id (fill q o) = order_id o /\ side (fill q o) = side o /\
  price (fill q o) = price o /\ quantity (fill q o) = quantity o /\
  type (fill q o) = type o /\ client_id (fill q o) = client_id o /\
  instrument (fill q o) = instrument o /\
  filled_quantity (fill q o) = filled_quantity o + q.
Proof. unfold fill. cbv zeta. repeat case_match; simpl; done. Qed.

Lemma fill_id o q : order_id (fill q o) = order_id o.
Proof. apply fill_fields. Qed.

Lemma fill_side o q : side (fill q o) = side o.
Proof. apply fill_fields. Qed.

Lemma fill_price o q : price (fill q o) = price o.
Proof. apply fill_fields. Qed.

Lemma fill_quantity o q : quantity (fill q o) = quantity o.
Proof. apply fill_fields. Qed.

Lemma fill_filled_quantity o q : filled_quantity (fill q o) = filled_quantity o + q.
Proof. apply fill_fields. Qed.

Lemma is_filled_iff o : is_filled o = true <-> quantity o <= filled_quantity o.
Proof. unfold is_filled. znum. apply Z.leb_le. Qed.

Lemma remaining_eq o : remaining_quantity o = quantity o - filled_quantity o.
Proof. done. Qed.

(** A fill within what remains of an open order. *)
Lemma fill_within o q :
  is_open o = true -> 0 < q <= remaining_quantity o ->
  (is_filled (fill q o) = true /\ status (fill q o) = filled /\
   filled_quantity (fill q o) = quantity (fill q o) /\ q = remaining_quantity o) \/
  (is_filled (fill q o) = false /\ is_open (fill q o) = true /\
   filled_quantity (fill q o) < quantity (fill q o) /\ q < remaining_quantity o).
Proof.
  intros Hopen Hq. rewrite remaining_eq in *.
  pose proof (fill_fields o q) as (_ & _ & _ & Hqty & _ & _ & _ & Hf).
  unfold fill in *. cbv zeta in *. unfold is_filled in *. simpl in *. znum.
  destruct (quantity o <=? filled_quantity o + q) eqn:E; zbool; simpl.
  - left. rewrite Z.leb_le. repeat split; lia.
  - right. rewrite Z.leb_gt.
    destruct (0 <? filled_quantity o + q); unfold is_open in *; simpl;
      repeat split; try done; lia.
Qed.

Lemma taker_state_new o : new_order o -> taker_state o.
Proof. intros (Hs & Hf & Hq). left. unfold is_open. rewrite Hs. split; [done|lia]. Qed.

Lemma taker_state_fill o q :
  is_open o = true -> 0 < q <= remaining_quantity o -> taker_state (fill q o).
Proof.
  intros Ho Hq. destruct (fill_within o q Ho Hq) as [(_ & ? & ? & _)|(_ & ? & ? & _)].
  - by right.
  - by left.
Qed.

End OrderFacts.

(** ** One trade of the matching loop *)

Section ExecFacts.
Implicit Types (e : MatchingEngine Z) (b : OrderBook Z) (h : list (Order Z))
  (o r : Order Z) (s : Side) (p q : Z).

Lemma no_cross_spec s o r :
  no_cross s o r = true <->
  match s with buy => price o < price r | sell => price r < price o end.
Proof. destruct s; simpl; apply Z.ltb_lt. Qed.

(** The four loops of the source, read off the one of the model. *)
Lemma match_loop_unfold s lim fuel order e :
  match_loop s lim (S fuel) order e =
  match heap e !! order with
  | None => Some e
  | Some o =>
      if (0 <? remaining_quantity o)
         && negb (bool_decide (prices (opp_ladder s (orderBook e)) = []))
      then
        match best_opposite s (orderBook e) with
        | None => Some e
        | Some best =>
            match heap e !! best with
            | None => Some e
            | Some r =>
                if lim && no_cross s o r then Some e
                else match_loop s lim fuel order
                       (exec s order best (price r)
                          (Z.min (remaining_quantity o) (remaining_quantity r)) e)
            end
        end
      else Some e
  end.
Proof. destruct s; reflexivity. Qed.

Lemma heap_after_fills h order best o r q :
  h !! order = Some o -> h !! best = Some r -> order <> best ->
  alter (fill q) best (alter (fill q) order h) =
    <[best := fill q r]> (<[order := fill q o]> h) /\
  alter (fill q) order (alter (fill q) best h) =
    <[best := fill q r]> (<[order := fill q o]> h).
Proof.
  intros Ho Hr Hne.
  assert (order < length h)%nat as Hlo by by eapply lookup_lt_Some.
  assert (best < length h)%nat as Hlb by by eapply lookup_lt_Some.
  split; apply list_eq; intros i.
  - destruct (decide (i = best)) as [->|Hib].
    + rewrite list_lookup_alter_eq, list_lookup_alter_ne by done.
      rewrite list_lookup_insert_eq by by rewrite length_insert. by rewrite Hr.
    + rewrite list_lookup_alter_ne, list_lookup_insert_ne by done.
      destruct (decide (i = order)) as [->|Hio].
      * rewrite list_lookup_alter_eq, list_lookup_insert_eq by done. by rewrite Ho.
      * by rewrite list_lookup_alter_ne, list_lookup_insert_ne.
  - destruct (decide (i = best)) as [->|Hib].
    + rewrite list_lookup_alter_ne, list_lookup_alter_eq by done.
      rewrite list_lookup_insert_eq by by rewrite length_insert. by rewrite Hr.
    + rewrite list_lookup_insert_ne by done.
      destruct (decide (i = order)) as [->|Hio].
      * rewrite list_lookup_alter_eq, list_lookup_alter_ne, list_lookup_insert_eq by done.
        by rewrite Ho.
      * by rewrite !list_lookup_alter_ne, list_lookup_insert_ne.
Qed.

(** The state after the trade of an incoming order at [order] (absent from
    the index) with the resting order at [best]. *)
Lemma exec_fields s order best p q e o r :
  heap e !! order = Some o -> heap e !! best = Some r -> order <> best ->
  orders (orderBook e) !! order_id o = None ->
  let h' := <[best := fill q r]> (<[order := fill q o]> (heap e)) in
  let t := trade_for s (engine_instrument e) o r p q in
  let e' := exec s order best p q e in
  heap e' = h' /\
  trades e' = trades e ++ [t] /\
  orderBook e' =
    (if is_filled (fill q r) then removeOrder h' (order_id r) (orderBook e)
     else orderBook e) /\
  engine_instrument e' = engine_instrument e /\
  lock e' = lock e /\ pendingOrders e' = pendingOrders e /\
  exists c1 c2, calls e' = calls e ++ [OnTrade t; OnOrderUpdate c1; OnOrderUpdate c2].
Proof.
  intros Ho Hr Hne Hid. cbv zeta.
  destruct (heap_after_fills (heap e) order best o r q Ho Hr Hne) as [H1 H2].
  assert (order < length (heap e))%nat as Hlo by by eapply lookup_lt_Some.
  assert (best < length (heap e))%nat as Hlb by by eapply lookup_lt_Some.
  set (h' := <[best := fill q r]> (<[order := fill q o]> (heap e))).
  assert (h' !! order = Some (fill q o)) as Ho'.
  { unfold h'. rewrite list_lookup_insert_ne by done. by rewrite list_lookup_insert_eq. }
  assert (h' !! best = Some (fill q r)) as Hr'.
  { unfold h'. rewrite list_lookup_insert_eq by by rewrite length_insert. done. }
  assert (forall b, orders b !! order_id o = None ->
            removeOrder h' (order_id (fill q o)) b = b) as Hrm.
  { intros b Hb. rewrite fill_id. by apply removeOrder_absent. }
  assert (forall b, orders b !! order_id o = None ->
            (if is_filled (fill q o) then removeOrder h' (order_id o) b else b) = b)
    as Hrm2.
  { intros b Hb. destruct (is_filled (fill q o)); [|done]. by apply removeOrder_absent. }
  destruct s; unfold exec, _executeTrade; cbv zeta.
  - rewrite H1. fold h'. rewrite Ho', Hr'. rewrite !fill_id.
    rewrite (Hrm2 _ Hid).
    repeat split; try reflexivity. eexists _, _. reflexivity.
  - rewrite H2. fold h'. rewrite Ho', Hr'. rewrite !fill_id.
    rewrite Hrm2.
    + repeat split; try reflexivity. eexists _, _. reflexivity.
    + destruct (is_filled (fill q r)); [|done].
      unfold removeOrder. repeat case_match; simpl; try done;
        by rewrite lookup_delete_None; right.
Qed.

End ExecFacts.

(** ** The matching loop *)

Section LoopFacts.
Implicit Types (e : MatchingEngine Z) (b : OrderBook Z) (h : list (Order Z))
  (o r : Order Z) (s : Side) (p q : Z).

Lemma ladder_best_head d (ld : Ladder Z) p0 ps :
  ladder_ok d ld -> prices ld = p0 :: ps ->
  exists l lv, ladder_best ld = Some l /\ map_get p0 (levels ld) = Some (l :: lv) /\
              in_ladder ld p0 l.
Proof.
  intros Hok Hp. unfold ladder_best. rewrite Hp.
  assert (p0 ∈ fst <$> levels ld) as Hin.
  { apply Hok. rewrite Hp. left. }
  apply list_elem_of_fmap in Hin as ([p1 q1] & Heq & Hin). simpl in Heq. subst p1.
  pose proof (lo_nonempty _ _ Hok _ _ Hin) as Hne.
  rewrite (map_get_Some _ _ _ (lo_keys _ _ Hok) Hin).
  destruct q1 as [|l q]; [done|]. exists l, q. repeat split; try done.
  exists (l :: q). split; [done|left].
Qed.

Lemma best_opposite_eq s b : best_opposite s b = ladder_best (opp_ladder s b).
Proof. by destruct s. Qed.

Lemma opp_ladder_ok s h b :
  book_struct h b -> ladder_ok (bool_decide (s = sell)) (opp_ladder s b).
Proof. intros Hb. destruct s; simpl; apply Hb. Qed.

(** The best resting order on the other side, when there is a price there. *)
Lemma best_opposite_resting s h b p0 ps :
  book_ok h b -> prices (opp_ladder s b) = p0 :: ps ->
  exists l lv r, best_opposite s b = Some l /\
    map_get p0 (levels (opp_ladder s b)) = Some (l :: lv) /\
    resident b (opposite s) p0 l /\ h !! l = Some r /\
    side r = opposite s /\ price r = p0 /\ orders b !! order_id r = Some l /\
    is_open r = true /\ filled_quantity r < quantity r.
Proof.
  intros [Hb Hlive] Hp.
  destruct (ladder_best_head _ _ _ _ (opp_ladder_ok s h b Hb) Hp) as (l & q & Hbest & Hg & Hin).
  destruct (bs_resting _ _ Hb (opposite s) p0 l Hin) as (r & Hl & Hs & Hpr & Hidx).
  destruct (Hlive _ _ _ _ Hin Hl) as [Ho Hf].
  exists l, q, r. rewrite best_opposite_eq. done.
Qed.

(** One trade keeps the loop invariant, and either takes a resting order
    out of the book or fills the incoming order. *)
Lemma exec_loop_ok s order e o best r :
  loop_ok order e -> heap e !! order = Some o -> 0 < remaining_quantity o ->
  resident (orderBook e) (opposite s) (price r) best -> heap e !! best = Some r ->
  let q := Z.min (remaining_quantity o) (remaining_quantity r) in
  let e' := exec s order best (price r) q e in
  loop_ok order e' /\
  heap e' !! order = Some (fill q o) /\
  0 < q /\
  ((length (book_locs (orderBook e')) < length (book_locs (orderBook e)))%nat \/
   remaining_quantity (fill q o) <= 0) /\
  (forall s' p, p ∈ prices (ladder_of s' (orderBook e')) ->
                p ∈ prices (ladder_of s' (orderBook e))) /\
  (forall s' p l, resident (orderBook e') s' p l -> resident (orderBook e) s' p l).
Proof.
  intros ([Hb Hlive] & o0 & Ho0 & Hts & Hfresh & Hidx) Ho Hrem Hres Hr. cbv zeta.
  assert (o0 = o) as -> by congruence.
  assert (is_open o = true /\ filled_quantity o < quantity o) as [Hopen Hlt].
  { destruct Hts as [?|[_ Heq]]; [done|]. rewrite remaining_eq in Hrem. lia. }
  destruct (Hlive _ _ _ _ Hres Hr) as [Hropen Hrlt].
  assert (order <> best) as Hne.
  { intros ->. apply Hfresh. by eapply resident_locs. }
  set (q := Z.min (remaining_quantity o) (remaining_quantity r)).
  assert (0 < q <= remaining_quantity o /\ q <= remaining_quantity r) as (Hq & Hqr).
  { unfold q. rewrite !remaining_eq in *. lia. }
  destruct (exec_fields s order best (price r) q e o r Ho Hr Hne Hidx)
    as (Hh & Ht & Hbk & Hin & Hlk & Hpd & _).
  set (h' := <[best := fill q r]> (<[order := fill q o]> (heap e))) in *.
  assert (order < length (heap e))%nat as Hlo by by eapply lookup_lt_Some.
  assert (best < length (heap e))%nat as Hlb by by eapply lookup_lt_Some.
  assert (h' !! order = Some (fill q o)) as Ho'.
  { unfold h'. rewrite list_lookup_insert_ne by done. by rewrite list_lookup_insert_eq. }
  assert (h' !! best = Some (fill q r)) as Hr'.
  { unfold h'. rewrite list_lookup_insert_eq by by rewrite length_insert. done. }
  assert (forall l, l <> order -> l <> best -> h' !! l = heap e !! l) as Hother.
  { intros l H1 H2. unfold h'. by rewrite !list_lookup_insert_ne. }
  assert (keeps_identity (heap e) h') as Hkeep.
  { eapply keeps_identity_trans.
    - apply (keeps_identity_insert _ order o (fill q o)); [done|..]; apply fill_fields.
    - apply (keeps_identity_insert _ best r (fill q r)).
      + by rewrite list_lookup_insert_ne.
      + apply fill_fields.
      + apply fill_fields.
      + apply fill_fields. }
  pose proof (book_struct_heap _ _ _ Hkeep Hb) as Hb'.
  assert (orders (orderBook e) !! order_id (fill q r) = Some best) as Hidxr.
  { rewrite fill_id. destruct (bs_resting _ _ Hb _ _ _ Hres) as (r' & Hr'' & _ & _ & ?).
    congruence. }
  unfold loop_ok, book_ok. rewrite Hh, Hbk.
  assert (0 < q <= remaining_quantity r) as Hqr' by lia.
  destruct (fill_within r q Hropen Hqr') as [(Hf & _)|(Hf & Hopen' & Hlt' & _)];
    rewrite Hf.
  - (* the resting order is filled and leaves the book *)
    rewrite fill_id in Hidxr.
    destruct (removeOrder_struct h' (order_id r) best (orderBook e) Hb' Hidxr)
      as (Hs' & Hchar & Hidx' & Hperm & Hpb & Hpa).
    split_and!.
    + done.
    + intros s' p l o' Hres' Hl'. apply Hchar in Hres' as [Hres' Hnb].
      assert (l <> order) by (intros ->; apply Hfresh; by eapply resident_locs).
      rewrite Hother in Hl' by done. by eapply Hlive.
    + exists (fill q o). split_and!; [done|by apply taker_state_fill| |].
      * intros Hin'. apply Hfresh. rewrite Hperm. by right.
      * rewrite Hidx', fill_id. rewrite lookup_delete_None. by right.
    + done.
    + lia.
    + left. rewrite Hperm. simpl. lia.
    + intros s' p. destruct s'; simpl; [apply Hpb|apply Hpa].
    + intros s' p l Hres'. by apply Hchar in Hres' as [? _].
  - (* the resting order stays, partially filled *)
    split_and!.
    + done.
    + intros s' p l o' Hres' Hl'.
      assert (l <> order) by (intros ->; apply Hfresh; by eapply resident_locs).
      destruct (decide (l = best)) as [->|Hnb].
      * assert (o' = fill q r) as -> by congruence. done.
      * rewrite Hother in Hl' by done. by eapply Hlive.
    + exists (fill q o). split_and!; [done|by apply taker_state_fill|done|].
      by rewrite fill_id.
    + done.
    + lia.
    + right. destruct (fill_within o q Hopen Hq) as [(_ & _ & Heq & _)|(_ & _ & _ & Hltq)].
      * rewrite remaining_eq. lia.
      * exfalso. destruct (fill_within r q Hropen Hqr') as [(Hf' & _)|(_ & _ & _ & Hltr)];
          [congruence|]. unfold q in *. lia.
    + done.
    + done.
Qed.

End LoopFacts.

Section LoopRule.
Implicit Types (e : MatchingEngine Z) (b : OrderBook Z) (h : list (Order Z))
  (o r : Order Z) (s : Side) (p q : Z).

Lemma same_static_refl o : same_static o o.
Proof. by repeat split. Qed.

Lemma same_static_fill o o' q : same_static o o' -> same_static o (fill q o').
Proof.
  intros (? & ? & ? & ? & ? & ? & ?).
  pose proof (fill_fields o' q) as (? & ? & ? & ? & ? & ? & ? & _).
  repeat split; congruence.
Qed.

Lemma sorted_head_best d p0 ps p :
  StronglySorted (before d) (p0 :: ps) -> p ∈ p0 :: ps -> p = p0 \/ before d p0 p.
Proof.
  intros Hs Hin. apply StronglySorted_inv in Hs as [_ Hf].
  apply elem_of_cons in Hin as [->|Hin]; [by left|right].
  rewrite Forall_forall in Hf. auto.
Qed.

(** The rule of the matching loop: it ends within the fuel the book calls
    for, keeps [loop_ok] and any [J] that every trade keeps, and ends in
    [loop_done]. *)
Lemma match_loop_rule s lim order (J : MatchingEngine Z -> Prop) :
  (forall e o best r lv ps,
     loop_ok order e -> J e -> heap e !! order = Some o ->
     0 < remaining_quantity o ->
     prices (opp_ladder s (orderBook e)) = price r :: ps ->
     map_get (price r) (levels (opp_ladder s (orderBook e))) = Some (best :: lv) ->
     heap e !! best = Some r ->
     resident (orderBook e) (opposite s) (price r) best ->
     lim && no_cross s o r = false ->
     J (exec s order best (price r)
          (Z.min (remaining_quantity o) (remaining_quantity r)) e)) ->
  forall fuel e o,
    loop_ok order e -> J e -> heap e !! order = Some o ->
    ((remaining_quantity o <= 0 /\ (1 <= fuel)%nat) \/
     (length (book_locs (orderBook e)) + 2 <= fuel)%nat) ->
    exists e' o',
      match_loop s lim fuel order e = Some e' /\ loop_ok order e' /\ J e' /\
      heap e' !! order = Some o' /\ same_static o o' /\
      loop_done s lim o' (orderBook e').
Proof.
  intros HJ fuel. induction fuel as [|fuel IH]; intros e o Hok He Ho Hfuel.
  { destruct Hfuel as [[_ ?]|?]; lia. }
  rewrite match_loop_unfold, Ho.
  destruct (0 <? remaining_quantity o) eqn:Hrem; zbool; simpl.
  2:{ exists e, o. split_and!; [done..|apply same_static_refl|by left]. }
  destruct (prices (opp_ladder s (orderBook e))) as [|p0 ps] eqn:Hp; simpl.
  { exists e, o. split_and!; [done..|apply same_static_refl|right; by left]. }
  rewrite ?bool_decide_eq_false_2 by done. simpl.
  pose proof Hok as [Hbook _].
  destruct (best_opposite_resting s _ _ p0 ps Hbook Hp)
    as (best & lv & r & -> & Hg & Hres & Hr & Hside & Hprice & Hidx & Hopen & Hlt).
  rewrite Hr. subst p0.
  destruct (lim && no_cross s o r) eqn:Hstop.
  - exists e, o. split_and!; [done..|apply same_static_refl|].
    right; right. apply andb_true_iff in Hstop as [-> Hnc]. split; [done|].
    apply no_cross_spec in Hnc. intros p Hin. rewrite Hp in Hin.
    destruct Hbook as [Hb _]. pose proof (lo_sorted _ _ (opp_ladder_ok s _ _ Hb)) as Hs.
    rewrite Hp in Hs. destruct (sorted_head_best _ _ _ _ Hs Hin) as [->|Hbf].
    + done.
    + destruct s; simpl in *; lia.
  - destruct (exec_loop_ok s order e o best r Hok Ho Hrem Hres Hr)
      as (Hok' & Ho' & Hq & Hmeasure & _).
    specialize (HJ e o best r lv ps Hok He Ho Hrem Hp Hg Hr Hres Hstop).
    destruct (IH _ _ Hok' HJ Ho') as (e' & o' & Hrun & Hok'' & HJ' & Ho'' & Hst & Hdone).
    { destruct Hfuel as [[? _]|Hfuel]; [lia|].
      destruct Hmeasure as [Hm|Hm]; [right; lia|left; split; [done|lia]]. }
    exists e', o'. split_and!; try done.
    destruct Hst as (? & ? & ? & ? & ? & ? & ?).
    pose proof (fill_fields o (Z.min (remaining_quantity o) (remaining_quantity r)))
      as (? & ? & ? & ? & ? & ? & ? & _).
    repeat split; congruence.
Qed.

End LoopRule.

(** ** From the loop to [processOrder] *)

Section MatchOrderFacts.
Implicit Types (e : MatchingEngine Z) (b : OrderBook Z) (h : list (Order Z))
  (o r : Order Z) (s : Side) (p q : Z).

(** [_matchOrder] is the loop for the order's side and type, then
    [after_loop]. *)
Lemma matchOrder_after_loop fuel order e o e1 o1 :
  heap e !! order = Some o ->
  match_loop (side o) (bool_decide (type o = limit)) fuel order e = Some e1 ->
  heap e1 !! order = Some o1 -> type o1 = type o ->
  _matchOrder fuel order e = Some (after_loop order e1).
Proof.
  intros Ho Hloop Ho1 Hty. unfold _matchOrder, after_loop. rewrite Ho.
  destruct (type o) eqn:Htype.
  - rewrite bool_decide_eq_true_2 in Hloop by done.
    unfold _matchLimitOrder. rewrite Ho.
    assert (match side o with
            | buy => match_loop buy true fuel order e
            | sell => match_loop sell true fuel order e
            end = Some e1) as -> by by destruct (side o).
    simpl. rewrite Ho1, Hty. simpl. rewrite Ho1. by destruct (is_open o1).
  - rewrite bool_decide_eq_false_2 in Hloop by done.
    unfold _matchMarketOrder. rewrite Ho.
    assert (match side o with
            | buy => match_loop buy false fuel order e
            | sell => match_loop sell false fuel order e
            end = Some e1) as -> by by destruct (side o).
    simpl. rewrite Ho1, Hty. znum.
    destruct (0 <? quantity o1 - filled_quantity o1); simpl.
    + assert (order < length (heap e1))%nat as Hlo by by eapply lookup_lt_Some.
      rewrite list_lookup_insert_eq by done. simpl. done.
    + rewrite Ho1. by destruct (is_open o1).
Qed.

Lemma book_live_heap h h' b :
  book_live h b -> (forall l, l ∈ book_locs b -> h' !! l = h !! l) -> book_live h' b.
Proof.
  intros Hlive Hsame s p l o Hres Hl. rewrite Hsame in Hl by by eapply resident_locs.
  by eapply Hlive.
Qed.

(** What [after_loop] leaves: a good book again. *)
Lemma after_loop_ok order e1 o1 :
  loop_ok order e1 -> heap e1 !! order = Some o1 ->
  loop_done (side o1) (bool_decide (type o1 = limit)) o1 (orderBook e1) ->
  let e' := after_loop order e1 in
  book_ok (heap e') (orderBook e') /\
  trades e' = trades e1 /\ lock e' = lock e1 /\ pendingOrders e' = pendingOrders e1 /\
  engine_instrument e' = engine_instrument e1 /\
  length (heap e') = length (heap e1) /\
  (forall id, is_Some (orders (orderBook e') !! id) ->
              is_Some (orders (orderBook e1) !! id) \/ id = order_id o1) /\
  (exists o', heap e' !! order = Some o' /\ same_static o1 o' /\
     filled_quantity o' = filled_quantity o1 /\
     match type o1 with
     | market =>
         orderBook e' = orderBook e1 /\
         (if 0 <? remaining_quantity o1 then status o' = rejected
          else status o' = filled /\ o' = o1)
     | limit =>
         o' = o1 /\
         if is_open o1
         then orderBook e' = addOrder order o1 (orderBook e1) /\
              resident (orderBook e') (side o1) (price o1) order
         else orderBook e' = orderBook e1 /\ status o1 = filled
     end).
Proof.
  intros ([Hb Hlive] & o0 & Ho0 & Hts & Hfresh & Hidx) Ho1 Hdone. cbv zeta.
  assert (o0 = o1) as -> by congruence.
  unfold after_loop. rewrite Ho1.
  assert (order < length (heap e1))%nat as Hlo by by eapply lookup_lt_Some.
  destruct (type o1) eqn:Hty; cbv zeta.
  - (* limit *)
    rewrite Ho1. destruct (is_open o1) eqn:Hopen.
    + destruct Hts as [[_ Hlt]|[Hst _]]; [|unfold is_open in Hopen; by rewrite Hst in Hopen].
      assert (forall pp, pp ∈ prices (opp_ladder (side o1) (orderBook e1)) ->
                match side o1 with buy => price o1 < pp | sell => pp < price o1 end) as Hnc.
      { destruct Hdone as [Hrem|[Hnil|[_ Hnc]]]; [| |done].
        - rewrite remaining_eq in Hrem. lia.
        - rewrite Hnil. intros pp Hpp. by apply elem_of_nil in Hpp. }
      destruct (addOrder_struct (heap e1) order o1 (orderBook e1) Hb Ho1 Hfresh Hidx)
        as (Hb' & Hchar & Hidx').
      { intros Hs pa Hpa. rewrite Hs in Hnc. by apply Hnc. }
      { intros Hs pb Hpb. rewrite Hs in Hnc. by apply Hnc. }
      simpl. split_and!; try done.
      * split; [done|]. intros s p l o Hres Hl. apply Hchar in Hres as [Hres|(-> & -> & ->)].
        -- by eapply Hlive.
        -- assert (o = o1) as -> by congruence. done.
      * intros id. rewrite Hidx'. intros [l Hl].
        apply lookup_insert_Some in Hl as [[<- _]|[_ Hl]]; [by right|left; eauto].
      * exists o1. split_and!; try done; try apply same_static_refl.
        apply Hchar. auto.
    + split_and!; try done; try (by left).
      exists o1. split_and!; try done; try apply same_static_refl.
      destruct Hts as [[Hopen' _]|[Hst _]]; [congruence|done].
  - (* market *)
    znum. destruct (0 <? remaining_quantity o1) eqn:Hrem; zbool; simpl.
    + rewrite list_lookup_insert_eq by done. simpl.
      split_and!; try done.
      * split.
        -- eapply book_struct_heap; [|done].
           by apply (keeps_identity_insert _ order o1).
        -- apply (book_live_heap (heap e1)); [done|]. intros l Hl.
           rewrite list_lookup_insert_ne; [done|]. by intros ->.
      * by rewrite length_insert.
      * by left.
      * exists (reject "Insufficient liquidity" o1). split_and!; try done.
        by apply list_lookup_insert_eq.
    + rewrite Ho1.
      assert (status o1 = filled) as Hst.
      { destruct Hts as [[_ Hlt]|[Hst _]]; [|done]. rewrite remaining_eq in Hrem. lia. }
      unfold is_open. rewrite Hst. split_and!; try done; try (by left).
      exists o1. split_and!; try done; try apply same_static_refl.
Qed.

End MatchOrderFacts.

Section ProcessOrderFacts.
Implicit Types (e : MatchingEngine Z) (b : OrderBook Z) (h : list (Order Z))
  (o r : Order Z) (s : Side) (p q : Z).

Lemma loop_base_refl e : loop_base e e.
Proof.
  repeat split; try done.
  - intros l o Hl. exists o. split; [done|apply same_static_refl].
  - exists []. by rewrite app_nil_r.
Qed.

Lemma removeOrder_index h id b id' :
  is_Some (orders (removeOrder h id b) !! id') -> is_Some (orders b !! id').
Proof.
  unfold removeOrder. repeat case_match; simpl; try done;
    intros [l Hl]; apply lookup_delete_Some in Hl as [_ Hl]; eauto.
Qed.

(** The fields of the state after one trade of a loop in [loop_ok]. *)
Lemma exec_fields_loop s order e o best r q :
  loop_ok order e -> heap e !! order = Some o ->
  resident (orderBook e) (opposite s) (price r) best -> heap e !! best = Some r ->
  let h' := <[best := fill q r]> (<[order := fill q o]> (heap e)) in
  let t := trade_for s (engine_instrument e) o r (price r) q in
  let e' := exec s order best (price r) q e in
  order <> best /\
  heap e' = h' /\
  trades e' = trades e ++ [t] /\
  orderBook e' =
    (if is_filled (fill q r) then removeOrder h' (order_id r) (orderBook e)
     else orderBook e) /\
  engine_instrument e' = engine_instrument e /\
  lock e' = lock e /\ pendingOrders e' = pendingOrders e /\
  exists c1 c2, calls e' = calls e ++ [OnTrade t; OnOrderUpdate c1; OnOrderUpdate c2].
Proof.
  intros (_ & o0 & Ho0 & _ & Hfresh & Hidx) Ho Hres Hr.
  assert (o0 = o) as -> by congruence.
  assert (order <> best) as Hne.
  { intros ->. apply Hfresh. by eapply resident_locs. }
  split; [done|]. by apply exec_fields.
Qed.

Lemma exec_loop_base s order e0 e o best r :
  loop_ok order e -> heap e !! order = Some o -> 0 < remaining_quantity o ->
  resident (orderBook e) (opposite s) (price r) best -> heap e !! best = Some r ->
  loop_base e0 e ->
  loop_base e0 (exec s order best (price r)
                  (Z.min (remaining_quantity o) (remaining_quantity r)) e).
Proof.
  intros Hok Ho Hrem Hres Hr (Hlk & Hpd & Hin & Hlen & Hst & Hrs & Hix & ts & Hts).
  destruct (exec_loop_ok s order e o best r Hok Ho Hrem Hres Hr) as (_ & _ & _ & _ & _ & Hmono).
  destruct (exec_fields_loop s order e o best r
              (Z.min (remaining_quantity o) (remaining_quantity r)) Hok Ho Hres Hr)
    as (Hne & Hh & Ht & Hb & Hin' & Hlk' & Hpd' & _).
  set (q := Z.min (remaining_quantity o) (remaining_quantity r)) in *.
  split_and!; try congruence.
  - rewrite Hh, !length_insert. done.
  - intros l o' Hl. rewrite Hh in Hl.
    destruct (decide (l = best)) as [->|Hnb].
    + rewrite list_lookup_insert_eq in Hl.
      2:{ rewrite length_insert. by eapply lookup_lt_Some. }
      injection Hl as <-. destruct (Hst _ _ Hr) as (o0 & Ho0 & Hs0).
      exists o0. split; [done|]. by apply same_static_fill.
    + rewrite list_lookup_insert_ne in Hl by done.
      destruct (decide (l = order)) as [->|Hno].
      * rewrite list_lookup_insert_eq in Hl by by eapply lookup_lt_Some.
        injection Hl as <-. destruct (Hst _ _ Ho) as (o0 & Ho0 & Hs0).
        exists o0. split; [done|]. by apply same_static_fill.
      * rewrite list_lookup_insert_ne in Hl by done. auto.
  - intros s' p l Hres'. apply Hrs. by apply Hmono.
  - intros id. rewrite Hb. destruct (is_filled (fill q r)); [|auto].
    intros Hsome. apply Hix. by eapply removeOrder_index.
  - exists (ts ++ [trade_for s (engine_instrument e) o r (price r) q]).
    rewrite Ht, Hts. by rewrite (assoc_L (++)).
Qed.

Lemma book_locs_bound h b : book_struct h b -> (length (book_locs b) <= length h)%nat.
Proof.
  intros Hb.
  cut (length (book_locs b) <= length (seq 0 (length h)))%nat.
  { by rewrite length_seq. }
  apply submseteq_length, NoDup_submseteq; [apply Hb|].
  intros l Hl. apply book_locs_resident in Hl as (s & p & Hres).
  destruct (bs_resting _ _ Hb _ _ _ Hres) as (o & Hl & _).
  apply elem_of_seq. apply lookup_lt_Some in Hl. lia.
Qed.

(** The state [processOrder] starts the matching from: the new object in the
    store, the lock taken. *)
Lemma start_loop_ok e o :
  engine_ok e -> submittable e o ->
  loop_ok (length (heap e)) (set_lock true (set_heap (heap e ++ [o]) e)).
Proof.
  intros ([Hb Hlive] & _ & _) [Hnew Hid]. split; simpl.
  - split.
    + eapply book_struct_heap; [apply keeps_identity_app|done].
    + intros s p l o' Hres Hl. destruct (bs_resting _ _ Hb _ _ _ Hres) as (o'' & Hl'' & _).
      rewrite lookup_app_l in Hl by by eapply lookup_lt_Some. by eapply Hlive.
  - exists o. split_and!.
    + by rewrite list_lookup_middle.
    + by apply taker_state_new.
    + intros Hin. apply book_locs_resident in Hin as (s & p & Hres).
      destruct (bs_resting _ _ Hb _ _ _ Hres) as (o' & Hl & _).
      apply lookup_lt_Some in Hl. lia.
    + done.
Qed.

(** [processOrder] on an engine between commands: the matching loop of the
    order's side and type from the start state, then [after_loop], then the
    release of the lock.  [J] is any property of the engine that the start
    state has and every trade keeps. *)
Lemma processOrder_spec (J : MatchingEngine Z -> Prop) fuel e o :
  engine_ok e -> submittable e o ->
  (length (heap e) + 2 <= fuel)%nat ->
  let order := length (heap e) in
  let s := side o in
  let lim := bool_decide (type o = limit) in
  let e0 := set_lock true (set_heap (heap e ++ [o]) e) in
  (forall e1 o1 best r lv ps,
     loop_ok order e1 -> loop_base e0 e1 -> J e1 -> heap e1 !! order = Some o1 ->
     0 < remaining_quantity o1 ->
     prices (opp_ladder s (orderBook e1)) = price r :: ps ->
     map_get (price r) (levels (opp_ladder s (orderBook e1))) = Some (best :: lv) ->
     heap e1 !! best = Some r ->
     resident (orderBook e1) (opposite s) (price r) best ->
     lim && no_cross s o1 r = false ->
     J (exec s order best (price r)
          (Z.min (remaining_quantity o1) (remaining_quantity r)) e1)) ->
  J e0 ->
  exists e1 o1,
    match_loop s lim fuel order e0 = Some e1 /\
    loop_ok order e1 /\ loop_base e0 e1 /\ J e1 /\
    heap e1 !! order = Some o1 /\ same_static o o1 /\
    loop_done s lim o1 (orderBook e1) /\
    processOrder fuel o e = Some (set_lock false (after_loop order e1)) /\
    engine_ok (set_lock false (after_loop order e1)).
Proof.
  intros Hok Hsub Hfuel order s lim e0 HJ HJ0.
  pose proof (start_loop_ok e o Hok Hsub) as Hstart. fold order e0 in Hstart.
  assert (heap e0 !! order = Some o) as Ho0.
  { unfold e0, order. simpl. by rewrite list_lookup_middle. }
  destruct (match_loop_rule s lim order (fun e1 => loop_base e0 e1 /\ J e1))
    with (fuel := fuel) (e := e0) (o := o)
    as (e1 & o1 & Hloop & Hok1 & [Hbase HJ1] & Ho1 & Hst & Hdone); try done.
  - intros e1 o1 best r lv ps Hok1 [Hbase HJ1] Ho1 Hrem Hp Hg Hr Hres Hstop. split.
    + by apply exec_loop_base.
    + by eapply HJ.
  - split; [apply loop_base_refl|done].
  - right. destruct Hok as ([Hb _] & _ & _).
    pose proof (book_locs_bound _ _ Hb) as Hbound. unfold e0. simpl. lia.
  - exists e1, o1. split_and!; try done.
    + destruct Hok as (_ & Hlock & Hpend).
      unfold processOrder, processOrder_at. simpl. rewrite Hlock.
      fold order. fold e0.
      rewrite (matchOrder_after_loop fuel order e0 o e1 o1 Ho0 Hloop Ho1); [|apply Hst].
      simpl.
      destruct Hst as (_ & _ & _ & Hside & Hty & _).
      destruct (after_loop_ok order e1 o1 Hok1 Ho1) as (_ & _ & _ & Hpd & _).
      { rewrite Hside, Hty. done. }
      rewrite Hpd. destruct Hbase as (_ & -> & _). unfold e0. simpl. rewrite Hpend. done.
    + destruct Hst as (_ & _ & _ & Hside & Hty & _).
      destruct (after_loop_ok order e1 o1 Hok1 Ho1) as (Hbk & _ & Hlk & Hpd & _).
      { rewrite Hside, Hty. done. }
      destruct Hok as (_ & Hlock & Hpend).
      split_and!; try done. simpl. rewrite Hpd.
      destruct Hbase as (_ & -> & _). unfold e0. simpl. done.
Qed.

End ProcessOrderFacts.

(** ** Commands *)

Section CommandFacts.
Implicit Types (e : MatchingEngine Z) (b : OrderBook Z) (h : list (Order Z))
  (o r : Order Z) (s : Side) (p q : Z) (cs : list (Command Z)).

Lemma empty_ladder_ok d : ladder_ok d (mkLadder [] []).
Proof.
  constructor; simpl.
  - constructor.
  - intros p0. by rewrite !elem_of_nil.
  - constructor.
  - intros p0 lv Hin. by apply elem_of_nil in Hin.
Qed.

Lemma newEngine_ok instr : engine_ok (newEngine instr).
Proof.
  split; [|done]. split.
  - constructor; simpl.
    + apply empty_ladder_ok.
    + apply empty_ladder_ok.
    + constructor.
    + intros s p l (lv & Hin & _). destruct s; by apply elem_of_nil in Hin.
    + intros id l Hl. by rewrite lookup_empty in Hl.
    + intros pb pa Hpb. by apply elem_of_nil in Hpb.
  - intros s p l o (lv & Hin & _). destruct s; by apply elem_of_nil in Hin.
Qed.

(** [cancelOrder] of a resting order: it is cancelled and leaves the book. *)
Lemma cancelOrder_ok id e :
  engine_ok e ->
  match cancelOrder id e with
  | Ok (o', e') =>
      engine_ok e' /\ status o' = cancelled /\ order_id o' = id /\
      orders (orderBook e') = delete id (orders (orderBook e)) /\
      length (heap e') = length (heap e) /\ trades e' = trades e /\
      is_Some (orders (orderBook e) !! id)
  | Throw _ => orders (orderBook e) !! id = None
  end.
Proof.
  intros ([Hb Hlive] & Hlock & Hpend). unfold cancelOrder.
  destruct (orders (orderBook e) !! id) as [l|] eqn:Hidx; [|done].
  destruct (bs_index _ _ Hb _ _ Hidx) as (o & Hl & Hid & Hres).
  rewrite Hl. destruct (Hlive _ _ _ _ Hres Hl) as [Hopen Hlt].
  unfold cancel. rewrite Hopen. simpl.
  set (o' := set_status cancelled o).
  set (h' := <[l := o']> (heap e)).
  assert (keeps_identity (heap e) h') as Hk.
  { by apply (keeps_identity_insert _ l o). }
  pose proof (book_struct_heap _ _ _ Hk Hb) as Hb'.
  destruct (removeOrder_struct h' id l (orderBook e) Hb' Hidx)
    as (Hs' & Hchar & Hidx' & Hperm & _).
  split_and!; try done.
  - split; [|done]. split; [done|]. simpl.
    intros s p l' o'' Hres' Hl'. apply Hchar in Hres' as [Hres' Hne].
    unfold h' in Hl'. rewrite list_lookup_insert_ne in Hl' by done. by eapply Hlive.
  - unfold h'. by rewrite length_insert.
Qed.

Lemma submitted_ids_app cs1 cs2 :
  submitted_ids (cs1 ++ cs2) = submitted_ids cs1 ++ submitted_ids cs2.
Proof. unfold submitted_ids. by rewrite omap_app. Qed.

Lemma commands_ok_app cs1 cs2 : commands_ok (cs1 ++ cs2) -> commands_ok cs1.
Proof.
  intros [Hnd Hnew]. split.
  - rewrite submitted_ids_app in Hnd. by apply NoDup_app in Hnd as [? _].
  - intros o Hin. apply Hnew. rewrite elem_of_app. by left.
Qed.

Lemma commands_ok_take n cs : commands_ok cs -> commands_ok (take n cs).
Proof. intros Hok. rewrite <- (take_drop n cs) in Hok. by eapply commands_ok_app. Qed.

(** One command keeps the engine good; a submitted order adds at most its
    own id to the index and one object to the store. *)
Lemma run_command_ok fuel c e :
  engine_ok e ->
  (match c with Submit o => submittable e o | Cancel _ => True end) ->
  (length (heap e) + 2 <= fuel)%nat ->
  exists e', run_command fuel c e = Some e' /\ engine_ok e' /\
    (length (heap e') <= length (heap e) + 1)%nat /\
    (forall id, is_Some (orders (orderBook e') !! id) ->
       is_Some (orders (orderBook e) !! id) \/
       match c with Submit o => id = order_id o | Cancel _ => False end).
Proof.
  intros Hok Hsub Hfuel. destruct c as [o|id]; simpl.
  - destruct (processOrder_spec (fun _ => True) fuel e o Hok Hsub Hfuel)
      as (e1 & o1 & Hloop & Hok1 & Hbase & _ & Ho1 & Hst & Hdone & Hrun & Hok'); [done..|].
    eexists. split; [done|]. split; [done|].
    destruct Hst as (Hid & _ & _ & Hside & Hty & _).
    destruct (after_loop_ok _ e1 o1 Hok1 Ho1) as (_ & _ & _ & _ & _ & Hlen & Hix & _).
    { by rewrite Hside, Hty. }
    destruct Hbase as (_ & _ & _ & Hlen1 & _ & _ & Hix1 & _).
    simpl. split.
    + rewrite Hlen, Hlen1. simpl. rewrite length_app. simpl. lia.
    + intros id Hsome. destruct (Hix id Hsome) as [Hs| ->]; [|right; congruence].
      left. by apply Hix1 in Hs.
  - pose proof (cancelOrder_ok id e Hok) as Hc.
    destruct (cancelOrder id e) as [[o' e']|msg].
    + destruct Hc as (Hok' & _ & _ & Hidx & Hlen & _).
      exists e'. split_and!; try done; [lia|].
      intros id'. rewrite Hidx. intros [l Hl].
      apply lookup_delete_Some in Hl as [_ Hl]. left. eauto.
    + exists e. split_and!; try done; [lia|]. auto.
Qed.

(** A run of commands with new orders and distinct ids completes, and leaves
    the engine good. *)
Lemma run_commands_ok fuel cs : forall e (seen : list string) n,
  engine_ok e ->
  (forall id, is_Some (orders (orderBook e) !! id) -> id ∈ seen) ->
  commands_ok cs -> (forall id, id ∈ submitted_ids cs -> id ∉ seen) ->
  (length (heap e) <= n)%nat -> (n + length cs + 2 <= fuel)%nat ->
  exists e', run_commands fuel cs e = Some e' /\ engine_ok e' /\
    (length (heap e') <= n + length cs)%nat /\
    (forall id, is_Some (orders (orderBook e') !! id) ->
                id ∈ seen \/ id ∈ submitted_ids cs).
Proof.
  induction cs as [|c cs IH]; intros e seen n Hok Hseen Hcs Hfresh Hlen Hfuel; simpl.
  { exists e. split_and!; try done; [lia|auto]. }
  simpl in Hfuel.
  destruct Hcs as [Hnd Hnew].
  destruct (run_command_ok fuel c e Hok) as (e1 & Hrun & Hok1 & Hlen1 & Hix1); [|lia|].
  { destruct c as [o|id]; [|done]. split.
    - apply Hnew. left.
    - destruct (orders (orderBook e) !! order_id o) eqn:E; [|done].
      exfalso. apply (Hfresh (order_id o)); [left|]. apply Hseen. eauto. }
  rewrite Hrun. simpl.
  set (seen' := match c with Submit o => order_id o :: seen | Cancel _ => seen end).
  destruct (IH e1 seen' (S n)) as (e' & Hrun' & Hok' & Hlen' & Hix'); try done.
  - intros id Hsome. destruct (Hix1 id Hsome) as [Hs|Hc].
    + unfold seen'. destruct c; [right|]; auto.
    + unfold seen'. destruct c; [subst; left|done].
  - split.
    + destruct c; simpl in Hnd; [by apply NoDup_cons in Hnd as [_ ?]|done].
    + intros o Hin. apply Hnew. by right.
  - intros id Hin. unfold seen'. destruct c as [o|id']; simpl in *.
    + apply NoDup_cons in Hnd as [Hn _]. rewrite not_elem_of_cons. split.
      * by intros ->.
      * apply Hfresh. by right.
    + by apply Hfresh.
  - lia.
  - lia.
  - exists e'. split_and!; try done; [lia|].
    intros id Hsome. destruct (Hix' id Hsome) as [Hs|Hs].
    + unfold seen' in Hs. destruct c as [o|id']; simpl.
      * apply elem_of_cons in Hs as [->|Hs]; [right; left|by left].
      * by left.
    + right. destruct c; simpl; [by right|done].
Qed.

End CommandFacts.

(** ** Time priority within a level *)

Section QueueFacts.
Implicit Types (e : MatchingEngine Z) (b : OrderBook Z) (h : list (Order Z))
  (o r : Order Z) (s : Side) (p : Z) (lv : list nat) (l la lb : nat).

Lemma ahead_app_r lv la lb l : ahead lv la lb -> ahead (lv ++ [l]) la lb.
Proof.
  intros (i & j & Hij & Hi & Hj). exists i, j.
  split_and!; [done|by apply lookup_app_l_Some..].
Qed.

Lemma ahead_snoc lv la l : la ∈ lv -> ahead (lv ++ [l]) la l.
Proof.
  intros Hin. apply list_elem_of_lookup in Hin as [i Hi].
  exists i, (length lv). split_and!.
  - by eapply lookup_lt_Some.
  - by apply lookup_app_l_Some.
  - by apply list_lookup_middle.
Qed.

Lemma ahead_delete lv la lb l k :
  lv !! k = Some l -> l <> la -> l <> lb -> ahead lv la lb -> ahead (delete k lv) la lb.
Proof.
  intros Hk Hna Hnb (i & j & Hij & Hi & Hj).
  assert (i <> k) as Hik by (intros ->; congruence).
  assert (j <> k) as Hjk by (intros ->; congruence).
  destruct (decide (i < k)%nat) as [Hlt|Hge]; destruct (decide (j < k)%nat) as [Hlt'|Hge'].
  - exists i, j. by rewrite !list_lookup_delete_lt.
  - exists i, (j - 1)%nat. split_and!; [lia|by rewrite list_lookup_delete_lt|].
    rewrite list_lookup_delete_ge by lia. by replace (S (j - 1)) with j by lia.
  - lia.
  - exists (i - 1)%nat, (j - 1)%nat. split_and!; [lia|..].
    + rewrite list_lookup_delete_ge by lia. by replace (S (i - 1)) with i by lia.
    + rewrite list_lookup_delete_ge by lia. by replace (S (j - 1)) with j by lia.
Qed.

Lemma ahead_head_ne lv l la lb : NoDup (l :: lv) -> ahead (l :: lv) la lb -> l <> lb.
Proof.
  intros Hnd (i & j & Hij & Hi & Hj) ->.
  assert (j = 0%nat); [|lia].
  eapply NoDup_lookup; [done|exact Hj|done].
Qed.

Lemma level_nodup h b s p lv :
  book_struct h b -> map_get p (levels (ladder_of s b)) = Some lv -> NoDup lv.
Proof.
  intros Hb Hg. apply map_get_elem in Hg.
  pose proof (bs_nodup _ _ Hb) as Hnd. unfold book_locs in Hnd.
  apply NoDup_app in Hnd as (Hb1 & _ & Ha1).
  assert (NoDup (ladder_locs (ladder_of s b))) as Hnd by by destruct s.
  unfold ladder_locs in Hnd. apply list_elem_of_split in Hg as (m1 & m2 & Hm).
  rewrite Hm, fmap_app, fmap_cons, join_app in Hnd. simpl in Hnd.
  apply NoDup_app in Hnd as (_ & _ & Hnd). by apply NoDup_app in Hnd as (? & _).
Qed.

Lemma level_of_resident h b s p l :
  book_struct h b -> l ∈ level_of b s p <-> resident b s p l.
Proof.
  intros Hb. unfold level_of, resident, in_ladder.
  assert (NoDup (fst <$> levels (ladder_of s b))) as Hk.
  { destruct s; apply Hb. }
  split.
  - destruct (map_get p (levels (ladder_of s b))) as [lv|] eqn:Hg; simpl.
    + intros Hin. exists lv. split; [by apply map_get_elem|done].
    + intros Hin. by apply elem_of_nil in Hin.
  - intros (lv & Hin & Hl). by rewrite (map_get_Some _ _ _ Hk Hin).
Qed.

(** The levels after [ladder_remove] took out the order at index [k] of its
    level. *)
Lemma ladder_remove_level h o (ld : Ladder Z) lv k p :
  NoDup (fst <$> levels ld) ->
  map_get (price o) (levels ld) = Some lv ->
  findIndex (same_order_id h (order_id o)) lv = Some k ->
  default [] (map_get p (levels (ladder_remove h o ld))) =
    if decide (p = price o) then delete k lv
    else default [] (map_get p (levels ld)).
Proof.
  intros Hnd Hg Hf.
  destruct (ladder_remove_cases h o ld lv k Hg Hf) as (m1 & m2 & Hm & ->).
  rewrite Hm in Hnd. destruct (NoDup_keys_middle _ _ _ _ Hnd) as [Hnd' Hnp].
  assert (forall p' lv', p' <> price o ->
            map_get p' (m1 ++ m2) = map_get p' (m1 ++ (price o, lv') :: m2)) as Hother.
  { intros p' lv' Hne. clear -Hne. induction m1 as [|[k1 v1] m1 IH]; simpl; znum.
    - destruct (price o =? p') eqn:E; zbool; [congruence|done].
    - by rewrite IH. }
  destruct (decide (p = price o)) as [->|Hne].
  - destruct (delete k lv) as [|x lv'] eqn:Hdel; simpl.
    + apply map_get_None in Hnp. by rewrite Hnp.
    + rewrite (map_get_Some (m1 ++ (price o, x :: lv') :: m2) (price o) (x :: lv')); [done| |].
      * revert Hnd. by rewrite !fmap_app.
      * rewrite elem_of_app, elem_of_cons. auto.
  - rewrite Hm. destruct (delete k lv) as [|x lv'] eqn:Hdel; simpl.
    + by rewrite (Hother p lv).
    + by rewrite <- (Hother p (x :: lv')), <- (Hother p lv).
Qed.

(** [removeOrder] of the resting order at [l] deletes [l] from its queue and
    leaves every other queue as it is. *)
Lemma removeOrder_level h id l b :
  book_struct h b -> orders b !! id = Some l ->
  exists s0 p0 k,
    resident b s0 p0 l /\ level_of b s0 p0 !! k = Some l /\
    forall s p,
      level_of (removeOrder h id b) s p =
        if decide (s = s0 /\ p = p0) then delete k (level_of b s0 p0)
        else level_of b s p.
Proof.
  intros Hb Hidx.
  destruct (bs_index _ _ Hb _ _ Hidx) as (o & Hl & Hid & Hres).
  pose proof Hres as (lv & Hq & Hlq).
  assert (ladder_ok true (bidLadder b)) as Hokb by apply Hb.
  assert (ladder_ok false (askLadder b)) as Hoka by apply Hb.
  assert (NoDup (fst <$> levels (ladder_of (side o) b))) as Hk.
  { destruct (side o); [apply Hokb|apply Hoka]. }
  assert (map_get (price o) (levels (ladder_of (side o) b)) = Some lv) as Hg.
  { by apply map_get_Some. }
  destruct (findIndex_found (same_order_id h (order_id o)) lv l) as (i & Hf & Hi);
    [done| | |].
  { unfold same_order_id. rewrite Hl. apply String.eqb_refl. }
  { intros y Hy Hfy. unfold same_order_id in Hfy.
    destruct (h !! y) as [oy|] eqn:Hy'; [|done]. apply String.eqb_eq in Hfy.
    assert (resident b (side o) (price o) y) as Hry by (by exists lv).
    destruct (bs_resting _ _ Hb _ _ _ Hry) as (oy' & Hy'' & _ & _ & Hidy).
    assert (oy' = oy) as -> by congruence.
    rewrite Hfy, Hid, Hidx in Hidy. congruence. }
  exists (side o), (price o), i. split; [done|].
  unfold level_of at 1. rewrite Hg. simpl. split; [done|].
  intros s p. unfold removeOrder. rewrite Hidx, Hl. unfold level_of.
  destruct (side o) eqn:Hside; simpl in Hg, Hk.
  - rewrite ladder_of_removeBid. destruct s; case_decide as Hd.
    + destruct Hd as [_ ->].
      rewrite (ladder_remove_level h o (bidLadder b) lv i _ Hk Hg Hf).
      rewrite decide_True by done. simpl. by rewrite Hg.
    + rewrite (ladder_remove_level h o (bidLadder b) lv i _ Hk Hg Hf).
      rewrite decide_False by naive_solver. done.
    + by destruct Hd.
    + done.
  - rewrite ladder_of_removeAsk. destruct s; case_decide as Hd.
    + by destruct Hd.
    + done.
    + destruct Hd as [_ ->].
      rewrite (ladder_remove_level h o (askLadder b) lv i _ Hk Hg Hf).
      rewrite decide_True by done. simpl. by rewrite Hg.
    + rewrite (ladder_remove_level h o (askLadder b) lv i _ Hk Hg Hf).
      rewrite decide_False by naive_solver. done.
Qed.

End QueueFacts.

(** ** Rebuilding a book from rows *)

Section RebuildFacts.
Implicit Types (e : MatchingEngine Z) (b : OrderBook Z) (h rows : list (Order Z))
  (o r : Order Z) (s : Side) (p : Z) (lv : list nat) (l : nat) (ld : Ladder Z).

Lemma positions_app f i rows r :
  positions f i (rows ++ [r]) =
  positions f i rows ++ (if f r then [(i + length rows)%nat] else []).
Proof.
  revert i. induction rows as [|r' rows IH]; intros i; simpl.
  - rewrite Nat.add_0_r. by destruct (f r).
  - rewrite IH. replace (S i + length rows)%nat with (i + S (length rows))%nat by lia.
    by destruct (f r').
Qed.

Lemma queue_orders_app h lv1 lv2 :
  queue_orders h (lv1 ++ lv2) = queue_orders h lv1 ++ queue_orders h lv2.
Proof. unfold queue_orders. apply omap_app. Qed.

Lemma queue_orders_extend h o lv :
  (forall l, l ∈ lv -> (l < length h)%nat) ->
  queue_orders (h ++ [o]) lv = queue_orders h lv.
Proof.
  intros Hlt. unfold queue_orders. induction lv as [|l lv IH]; [done|]. csimpl.
  rewrite lookup_app_l by (apply Hlt; left). rewrite IH; [done|].
  intros l' Hl'. apply Hlt. by right.
Qed.

Lemma positions_bound f i rows l :
  l ∈ positions f i rows -> (i <= l < i + length rows)%nat.
Proof.
  revert i. induction rows as [|r rows IH]; intros i; simpl.
  - intros Hin. by apply elem_of_nil in Hin.
  - destruct (f r).
    + intros Hin. apply elem_of_cons in Hin as [->|Hin]; [lia|].
      apply IH in Hin. lia.
    + intros Hin. apply IH in Hin. lia.
Qed.

Lemma queue_orders_positions f rows :
  queue_orders rows (positions f 0 rows) = List.filter f rows.
Proof.
  induction rows as [|r rows IH] using rev_ind; [done|].
  rewrite positions_app, queue_orders_app, List.filter_app. simpl.
  rewrite queue_orders_extend.
  2:{ intros l Hl. apply positions_bound in Hl. lia. }
  rewrite IH. f_equal. destruct (f r); [|done].
  unfold queue_orders. simpl. by rewrite list_lookup_middle.
Qed.

Lemma map_get_other_middle (m1 m2 : list (Z * list nat)) k v v' p :
  p <> k -> map_get p (m1 ++ (k, v) :: m2) = map_get p (m1 ++ (k, v') :: m2).
Proof.
  intros Hne. induction m1 as [|[k1 v1] m1 IH]; simpl; znum.
  - destruct (k =? p) eqn:E; zbool; [congruence|done].
  - by rewrite IH.
Qed.

Lemma map_get_other_snoc (m : list (Z * list nat)) k v p :
  p <> k -> map_get p (m ++ [(k, v)]) = map_get p m.
Proof.
  intros Hne. induction m as [|[k1 v1] m IH]; simpl; znum.
  - destruct (k =? p) eqn:E; zbool; [congruence|done].
  - by rewrite IH.
Qed.

Lemma ladder_add_level_other d l o ld p :
  ladder_ok d ld -> p <> price o ->
  map_get p (levels (ladder_add (compare_of d) l o ld)) = map_get p (levels ld).
Proof.
  intros Hok Hne.
  destruct (ladder_add_cases d l o ld Hok) as [[Hg ->]|(q & m1 & m2 & Hg & Hm & ->)];
    simpl.
  - by apply map_get_other_snoc.
  - rewrite Hm. by apply map_get_other_middle.
Qed.

Lemma addOrder_ladders_ok l o b : ladders_ok b -> ladders_ok (addOrder l o b).
Proof.
  intros [Hb Ha]. unfold addOrder, ladders_ok. destruct (side o); simpl; split; try done.
  - by apply (ladder_add_ok true).
  - by apply (ladder_add_ok false).
Qed.

Lemma addOrder_level_of l o b s p :
  ladders_ok b ->
  level_of (addOrder l o b) s p =
    if at_level s p o then level_of b s p ++ [l] else level_of b s p.
Proof.
  intros [Hb Ha]. unfold level_of, at_level, addOrder.
  destruct (side o) eqn:Hs.
  - rewrite ladder_of_addBid. destruct s; simpl.
    + destruct (price o =? p) eqn:E; zbool.
      * subst p. by rewrite (ladder_add_level true).
      * by rewrite (ladder_add_level_other true).
    + done.
  - rewrite ladder_of_addAsk. destruct s; simpl.
    + done.
    + destruct (price o =? p) eqn:E; zbool.
      * subst p. by rewrite (ladder_add_level false).
      * by rewrite (ladder_add_level_other false).
Qed.

Lemma rebuild_snoc rows r : rebuild (rows ++ [r]) = load_row (rebuild rows) r.
Proof. unfold rebuild. by rewrite fold_left_app. Qed.

(** The rebuilt engine: the rows are its objects, and the queue of a level
    lists the positions of the rows of that side and price, in order. *)
Lemma rebuild_spec rows :
  Forall (fun r => is_open r = true) rows ->
  heap (rebuild rows) = rows /\ ladders_ok (orderBook (rebuild rows)) /\
  forall s p, level_of (orderBook (rebuild rows)) s p = positions (at_level s p) 0 rows.
Proof.
  induction rows as [|r rows IH] using rev_ind; intros Hopen.
  - split_and!; [done|split; apply empty_ladder_ok|]. intros s p. by destruct s.
  - apply Forall_app in Hopen as [Hopen Hr]. apply Forall_inv in Hr. simpl in Hr.
    destruct (IH Hopen) as (Hh & Hok & Hlv).
    rewrite rebuild_snoc. unfold load_row, fromDB. rewrite Hr. simpl.
    rewrite Hh. split_and!; [done|by apply addOrder_ladders_ok|].
    intros s p. rewrite addOrder_level_of by done. rewrite positions_app, Hlv. simpl.
    destruct (at_level s p r); [done|by rewrite app_nil_r].
Qed.

Lemma level_total_orders h lv :
  level_total h lv =
  fold_left (fun sum o => sum + remaining_quantity o) (queue_orders h lv) 0.
Proof.
  unfold level_total, queue_orders. znum. generalize 0.
  induction lv as [|l lv IH]; intros a; [done|]. csimpl.
  destruct (h !! l) as [o|]; simpl; apply IH.
Qed.

Lemma snapshot_side_eq h h' (m m' : list (Z * list nat)) ps total :
  (forall p, queue_orders h (default [] (map_get p m)) =
             queue_orders h' (default [] (map_get p m'))) ->
  snapshot_side h m ps total = snapshot_side h' m' ps total.
Proof.
  intros Heq. revert total. induction ps as [|p ps IH]; intros total; [done|].
  simpl. rewrite !level_total_orders, Heq. by rewrite IH.
Qed.

Lemma queue_orders_nil h lv :
  (forall l, l ∈ lv -> is_Some (h !! l)) -> queue_orders h lv = [] <-> lv = [].
Proof.
  intros Hv. split; [|by intros ->]. destruct lv as [|l lv]; [done|].
  unfold queue_orders. csimpl. destruct (Hv l) as [o ->]; [left|]. done.
Qed.

Lemma sorted_before_NoDup d (ps : list Z) : StronglySorted (before d) ps -> NoDup ps.
Proof.
  induction 1 as [|x ps Hs IH Hf]; constructor; [|done].
  intros Hin. rewrite Forall_forall in Hf. specialize (Hf x Hin).
  destruct d; unfold before in Hf; lia.
Qed.

Lemma ladder_prices_level d ld p :
  ladder_ok d ld -> p ∈ prices ld <-> default [] (map_get p (levels ld)) <> [].
Proof.
  intros Hok. rewrite (lo_prices _ _ Hok). split.
  - intros Hin. apply list_elem_of_fmap in Hin as ([p' lv] & -> & Hin). simpl.
    rewrite (map_get_Some _ _ _ (lo_keys _ _ Hok) Hin). simpl.
    by eapply (lo_nonempty _ _ Hok).
  - destruct (map_get p (levels ld)) as [lv|] eqn:Hg; simpl; [|done].
    intros _. apply map_get_elem in Hg. apply list_elem_of_fmap. by exists (p, lv).
Qed.

(** Two ladders of one side with the same populated prices have the same
    price array. *)
Lemma ladder_prices_eq d ld ld' :
  ladder_ok d ld -> ladder_ok d ld' ->
  (forall p, default [] (map_get p (levels ld)) = [] <->
             default [] (map_get p (levels ld')) = []) ->
  prices ld = prices ld'.
Proof.
  intros Hok Hok' Hsame.
  apply (StronglySorted_unique_strong (before d)).
  - intros x1 x2 _ _ H1 H2. destruct d; unfold before in *; lia.
  - apply Hok.
  - apply Hok'.
  - apply NoDup_Permutation.
    + eapply sorted_before_NoDup, Hok.
    + eapply sorted_before_NoDup, Hok'.
    + intros p. rewrite (ladder_prices_level d ld), (ladder_prices_level d ld') by done.
      by rewrite Hsame.
Qed.

Lemma best_order_head e s :
  valid_levels e ->
  best_order e s =
  match prices (ladder_of s (orderBook e)) with
  | [] => None
  | p0 :: _ => head (queue_orders (heap e) (level_of (orderBook e) s p0))
  end.
Proof.
  intros Hv. unfold best_order, ladder_best.
  destruct (prices (ladder_of s (orderBook e))) as [|p0 ps]; [done|].
  specialize (Hv s p0). unfold level_of in *.
  destruct (map_get p0 (levels (ladder_of s (orderBook e)))) as [[|l lv]|]; simpl; try done.
  destruct (Hv l) as [o Ho]; [left|]. unfold queue_orders. csimpl. by rewrite Ho.
Qed.

Lemma engine_ok_valid e : engine_ok e -> valid_levels e /\ ladders_ok (orderBook e).
Proof.
  intros ([Hb _] & _). split; [|split; apply Hb].
  intros s p l Hin. apply (level_of_resident _ _ _ _ _ Hb) in Hin.
  destruct (bs_resting _ _ Hb _ _ _ Hin) as (o & -> & _). eauto.
Qed.

Lemma rebuild_valid rows :
  Forall (fun r => is_open r = true) rows ->
  valid_levels (rebuild rows) /\ ladders_ok (orderBook (rebuild rows)).
Proof.
  intros Hopen. destruct (rebuild_spec rows Hopen) as (Hh & Hok & Hlv).
  split; [|done]. intros s p l Hin. rewrite Hlv in Hin. rewrite Hh.
  apply positions_bound in Hin. apply lookup_lt_is_Some. lia.
Qed.

(** Two engines whose queues hold the same orders at every level have the
    same snapshots and the same best orders. *)
Lemma same_queues_same_view e e' :
  valid_levels e -> ladders_ok (orderBook e) ->
  valid_levels e' -> ladders_ok (orderBook e') ->
  (forall s p, queue_orders (heap e') (level_of (orderBook e') s p) =
               queue_orders (heap e) (level_of (orderBook e) s p)) ->
  (forall n, getOrderBookSnapshot n e' = getOrderBookSnapshot n e) /\
  (forall s, best_order e' s = best_order e s).
Proof.
  intros Hv [Hb Ha] Hv' [Hb' Ha'] Hq.
  assert (forall s, prices (ladder_of s (orderBook e')) = prices (ladder_of s (orderBook e)))
    as Hprices.
  { intros s.
    assert (forall p, level_of (orderBook e') s p = [] <-> level_of (orderBook e) s p = [])
      as Hnil.
    { intros p. rewrite <- (queue_orders_nil (heap e')), <- (queue_orders_nil (heap e)).
      - by rewrite Hq.
      - apply Hv.
      - apply Hv'. }
    destruct s; simpl.
    - apply (ladder_prices_eq true); [done..|]. apply Hnil.
    - apply (ladder_prices_eq false); [done..|]. apply Hnil. }
  split.
  - intros n. unfold getOrderBookSnapshot, getSnapshot.
    unfold bidPrices, askPrices, bids, asks.
    pose proof (Hprices buy) as Hpb. pose proof (Hprices sell) as Hpa.
    simpl in Hpb, Hpa. rewrite Hpb, Hpa. f_equal.
    + apply snapshot_side_eq. intros p. apply (Hq buy).
    + apply snapshot_side_eq. intros p. apply (Hq sell).
  - intros s. rewrite !best_order_head by done. rewrite Hprices.
    destruct (prices (ladder_of s (orderBook e))); [done|]. by rewrite Hq.
Qed.

End RebuildFacts.

(** * Properties of the engine and the service *)



Section TradeFacts.
Implicit Types (e : MatchingEngine Z) (o r : Order Z) (s : Side) (t : Trade Z).

Lemma start_heap_lookup e o l r :
  heap e !! l = Some r -> (heap e ++ [o]) !! l = Some r.
Proof. apply lookup_app_l_Some. Qed.

(** An object a loop finds resting was resting, with the same static fields,
    in the engine the command started from. *)
Lemma resting_at_start e o e1 s p best r :
  engine_ok e ->
  loop_base (set_lock true (set_heap (heap e ++ [o]) e)) e1 ->
  resident (orderBook e1) s p best -> heap e1 !! best = Some r ->
  exists r0, resident (orderBook e) s p best /\ heap e !! best = Some r0 /\
             same_static r0 r /\ side r0 = s /\ price r0 = p.
Proof.
  intros ([Hb _] & _) (_ & _ & _ & _ & Hst & Hrs & _) Hres Hr.
  apply Hrs in Hres. simpl in Hres.
  destruct (bs_resting _ _ Hb _ _ _ Hres) as (r0 & Hr0 & Hs0 & Hp0 & _).
  destruct (Hst _ _ Hr) as (r0' & Hr0' & Hss). simpl in Hr0'.
  rewrite (start_heap_lookup _ _ _ _ Hr0) in Hr0'. injection Hr0' as <-.
  by exists r0.
Qed.

Lemma incoming_at_start e o e1 o1 :
  loop_base (set_lock true (set_heap (heap e ++ [o]) e)) e1 ->
  heap e1 !! length (heap e) = Some o1 -> same_static o o1.
Proof.
  intros (_ & _ & _ & _ & Hst & _) Ho1.
  destruct (Hst _ _ Ho1) as (o0 & Ho0 & Hss). simpl in Ho0.
  rewrite list_lookup_middle in Ho0 by done. by injection Ho0 as <-.
Qed.

Lemma sum_quantities_snoc (ts : list (Trade Z)) t :
  sum_quantities (ts ++ [t]) = sum_quantities ts + trade_quantity t.
Proof. unfold sum_quantities. induction ts as [|t' ts IH]; simpl; lia. Qed.

Lemma after_loop_rejected (order : nat) e1 o1 :
  heap e1 !! order = Some o1 -> type o1 = market -> 0 < remaining_quantity o1 ->
  heap (after_loop order e1) !! order = Some (reject "Insufficient liquidity" o1).
Proof.
  intros Ho1 Hty Hrem. unfold after_loop. rewrite Ho1, Hty. cbv zeta.
  rewrite (proj2 (Z.ltb_lt _ _) Hrem).
  assert (order < length (heap e1))%nat as Hlt by by eapply lookup_lt_Some.
  cbn [heap push_calls set_heap]. rewrite list_lookup_insert_eq by done.
  cbn [is_open reject set_status status heap push_calls set_heap].
  by apply list_lookup_insert_eq.
Qed.

End TradeFacts.





(** C10.  [removeOrder] with an id the [orders] index does not hold returns
    the book it was given: ladders, price arrays and index are the same.
    This holds whatever the number arithmetic. *)
Theorem C10_removeOrder_absent_unchanged {num : Type} `{JsNum num}
    (heap : list (Order num)) (orderId : string) (b : OrderBook num) :
  orders b !! orderId = None ->
  removeOrder heap orderId b = b /\
  bids (removeOrder heap orderId b) = bids b /\
  bidPrices (removeOrder heap orderId b) = bidPrices b /\
  asks (removeOrder heap orderId b) = asks b /\
  askPrices (removeOrder heap orderId b) = askPrices b /\
  orders (removeOrder heap orderId b) = orders b.
Proof.
  intros Hnone. assert (removeOrder heap orderId b = b) as ->; [|done].
  unfold removeOrder. by rewrite Hnone.
Qed.

(** Witness for C10: a book holding order A, asked to remove order Z. *)
Lemma C10_witness :
  let a := mkOrder "A" "c1" "BTC-USD" sell limit 70000%Z 5%Z 0%Z open None 1%Z in
  let b := addOrder 0%nat a emptyBook in
  orders b !! "Z" = None /\ removeOrder [a] "Z" b = b.
Proof.
  cbv zeta. split; [by vm_compute|].
  apply (C10_removeOrder_absent_unchanged
           [mkOrder "A" "c1" "BTC-USD" sell limit 70000%Z 5%Z 0%Z open None 1%Z] "Z").
  by vm_compute.
Defined.

Section PriorityFacts.
Implicit Types (e : MatchingEngine Z) (b : OrderBook Z) (h : list (Order Z))
  (o r : Order Z) (s : Side) (p : Z) (lv : list nat) (l la lb : nat).

Lemma addOrder_level h l o b :
  book_struct h b ->
  level_of (addOrder l o b) (side o) (price o) = level_of b (side o) (price o) ++ [l].
Proof.
  intros Hb. unfold level_of, addOrder. destruct (side o) eqn:Hs.
  - rewrite ladder_of_addBid. simpl.
    rewrite (ladder_add_level true) by apply Hb. done.
  - rewrite ladder_of_addAsk. simpl.
    rewrite (ladder_add_level false) by apply Hb. done.
Qed.

Lemma removeOrder_ahead h id l b s p la lb :
  book_struct h b -> orders b !! id = Some l -> l <> la -> l <> lb ->
  ahead (level_of b s p) la lb -> ahead (level_of (removeOrder h id b) s p) la lb.
Proof.
  intros Hb Hidx Hna Hnb Hah.
  destruct (removeOrder_level h id l b Hb Hidx) as (s0 & p0 & k & _ & Hk & Heq).
  rewrite Heq. case_decide as Hd; [|done]. destruct Hd as [-> ->].
  by eapply ahead_delete.
Qed.

Lemma maker_id_trade_for s instr o r p q :
  maker_id s (trade_for s instr o r p q) = order_id r.
Proof. by destruct s. Qed.

(** Matching follows the queue: an order is not traded against before the
    orders ahead of it in its level. *)
Lemma processOrder_time_priority fuel e o p la lb ra rb :
  engine_ok e -> submittable e o -> (length (heap e) + 2 <= fuel)%nat ->
  ahead (level_of (orderBook e) (opposite (side o)) p) la lb ->
  heap e !! la = Some ra -> heap e !! lb = Some rb ->
  exists e' ts,
    processOrder fuel o e = Some e' /\ trades e' = trades e ++ ts /\
    forall i t, ts !! i = Some t -> maker_id (side o) t = order_id rb ->
      exists j t', (j < i)%nat /\ ts !! j = Some t' /\
                   maker_id (side o) t' = order_id ra.
Proof.
  intros Hok Hsub Hfuel Hah Hra Hrb.
  set (s := side o).
  set (Q := fun ts : list (Trade Z) =>
    forall i t, ts !! i = Some t -> maker_id s t = order_id rb ->
      exists j t', (j < i)%nat /\ ts !! j = Some t' /\ maker_id s t' = order_id ra).
  destruct (processOrder_spec
    (fun e1 => exists ts, trades e1 = trades e ++ ts /\ Q ts /\
       ((exists t, t ∈ ts /\ maker_id s t = order_id ra) \/
        (ahead (level_of (orderBook e1) (opposite s) p) la lb /\
         forall t, t ∈ ts -> maker_id s t <> order_id rb)))
    fuel e o Hok Hsub Hfuel)
    as (e1 & o1 & Hloop & Hok1 & Hbase & (ts & Hts & HQ & _) & Ho1 & Hst & Hdone & Hproc & _).
  - intros e1 o1 best r lv ps Hok1 Hbase (ts & Hts & HQ & Hcase) Ho1 Hrem Hp Hg Hr Hres Hstop.
    fold s in Hres, Hg, Hp |- *.
    set (q := Z.min (remaining_quantity o1) (remaining_quantity r)).
    destruct (exec_fields_loop s _ e1 o1 best r q Hok1 Ho1 Hres Hr)
      as (Hne & Hh & Ht & Hbk & _).
    set (t := trade_for s (engine_instrument e1) o1 r (price r) q) in *.
    assert (maker_id s t = order_id r) as Hmk by apply maker_id_trade_for.
    pose proof Hok1 as ([Hb1 _] & _).
    (* the static data of the objects at [la], [lb] and [best] *)
    assert (forall l r0 r1, heap e !! l = Some r0 -> heap e1 !! l = Some r1 ->
              order_id r1 = order_id r0) as Hids.
    { intros l r0 r1 Hl0 Hl1. destruct Hbase as (_ & _ & _ & _ & Hst & _).
      destruct (Hst _ _ Hl1) as (r0' & Hl0' & Hss). simpl in Hl0'.
      rewrite (start_heap_lookup _ _ _ _ Hl0) in Hl0'. injection Hl0' as <-.
      apply Hss. }
    exists (ts ++ [t]). split; [rewrite Ht, Hts; by rewrite <- (assoc_L (++))|].
    destruct Hcase as [(t0 & Hin0 & Hmk0)|[Hah1 Hnb]].
    + (* an order ahead has been traded against already *)
      split.
      * intros i t' Hi Hmk'. apply list_elem_of_lookup in Hin0 as [j Hj].
        destruct (decide (i < length ts)%nat) as [Hlt|Hge].
        -- rewrite lookup_app_l in Hi by done.
           destruct (HQ i t' Hi Hmk') as (j' & t'' & ? & ? & ?).
           exists j', t''. split_and!; try done. by apply lookup_app_l_Some.
        -- exists j, t0. split_and!; try done.
           ++ apply lookup_lt_Some in Hj. lia.
           ++ by apply lookup_app_l_Some.
      * left. exists t0. split; [|done]. rewrite elem_of_app. by left.
    + (* nobody in the queue from [la] on has been traded against *)
      assert (lb ∈ level_of (orderBook e1) (opposite s) p) as Hlbin.
      { destruct Hah1 as (_ & j & _ & _ & Hj). by eapply list_elem_of_lookup_2. }
      assert (la ∈ level_of (orderBook e1) (opposite s) p) as Hlain.
      { destruct Hah1 as (i & _ & _ & Hi & _). by eapply list_elem_of_lookup_2. }
      apply (level_of_resident _ _ _ _ _ Hb1) in Hlbin, Hlain.
      destruct (bs_resting _ _ Hb1 _ _ _ Hlbin) as (rb1 & Hrb1 & _ & _ & Hidxb).
      destruct (bs_resting _ _ Hb1 _ _ _ Hlain) as (ra1 & Hra1 & _ & _ & Hidxa).
      destruct (bs_resting _ _ Hb1 _ _ _ Hres) as (r' & Hr' & _ & _ & Hidxr).
      assert (r' = r) as -> by congruence.
      rewrite (Hids _ _ _ Hrb Hrb1) in Hidxb. rewrite (Hids _ _ _ Hra Hra1) in Hidxa.
      assert (best <> lb) as Hbl.
      { destruct (decide (p = price r)) as [->|Hnp].
        - unfold level_of in Hah1. unfold opp_ladder in Hg.
          rewrite Hg in Hah1. simpl in Hah1.
          eapply ahead_head_ne; [|exact Hah1].
          eapply level_nodup; [exact Hb1|exact Hg].
        - intros ->. destruct (resident_unique _ _ _ _ _ _ _ Hb1 Hres Hlbin). done. }
      assert (order_id r <> order_id rb) as Hidne.
      { intros Heq. rewrite Heq in Hidxr. congruence. }
      split.
      * intros i t' Hi Hmk'.
        destruct (decide (i < length ts)%nat) as [Hlt|Hge].
        -- rewrite lookup_app_l in Hi by done.
           destruct (HQ i t' Hi Hmk') as (j' & t'' & ? & ? & ?).
           exists j', t''. split_and!; try done. by apply lookup_app_l_Some.
        -- rewrite lookup_app_r in Hi by lia.
           apply list_lookup_singleton_Some in Hi as [_ <-]. congruence.
      * destruct (decide (best = la)) as [->|Hba].
        -- left. exists t. split; [rewrite elem_of_app, list_elem_of_singleton; by right|].
           rewrite Hmk. assert (ra1 = r) as -> by congruence.
           by apply (Hids la).
        -- right. split.
           ++ rewrite Hbk. destruct (is_filled (fill q r)); [|done].
              apply (removeOrder_ahead _ _ best); try done.
              eapply book_struct_heap; [|exact Hb1].
              eapply keeps_identity_trans.
              ** apply (keeps_identity_insert _ (length (heap e)) o1 (fill q o1));
                   [done|..]; apply fill_fields.
              ** apply (keeps_identity_insert _ best r (fill q r)).
                 --- by rewrite list_lookup_insert_ne.
                 --- apply fill_fields.
                 --- apply fill_fields.
                 --- apply fill_fields.
           ++ intros t' Hin'. apply elem_of_app in Hin' as [Hin'|Hin']; [by apply Hnb|].
              apply list_elem_of_singleton in Hin' as ->. congruence.
  - exists []. split; [by rewrite app_nil_r|]. split.
    + intros i t Hi. by rewrite lookup_nil in Hi.
    + right. split; [done|]. intros t Hin. by apply elem_of_nil in Hin.
  - destruct Hst as (_ & _ & _ & Hside & Hty & _).
    destruct (after_loop_ok _ e1 o1 Hok1 Ho1) as (_ & Htr & _).
    { by rewrite Hside, Hty. }
    eexists _, ts. split; [done|]. split; [simpl; by rewrite Htr|done].
Qed.

End PriorityFacts.



Section LifecycleFacts.
Implicit Types (o : Order Z) (op : OrderOp Z).

Lemma cancel_open o : is_open o = true -> cancel o = Ok (set_status cancelled o).
Proof. unfold cancel. by intros ->. Qed.

Lemma cancel_not_open o : is_open o = false -> cancel o = Throw (cannot_cancel o).
Proof. unfold cancel. by intros ->. Qed.

Lemma terminal_not_open o : terminal o <-> is_open o = false.
Proof.
  unfold terminal, is_open. destruct (status o); split; try done;
    intros H; try (by repeat destruct H as [H|H]); auto.
Qed.

(** What the engine's use of the operations keeps true of an order. *)
Lemma lifecycle_step o op :
  (0 < quantity o /\ 0 <= filled_quantity o <= quantity o /\
   (status o = filled <-> filled_quantity o = quantity o) /\
   (status o = open -> filled_quantity o = 0) /\
   (status o = partially_filled -> 0 < filled_quantity o)) ->
  op_allowed o op ->
  let o' := apply_op o op in
  0 < quantity o' /\ 0 <= filled_quantity o' <= quantity o' /\
  (status o' = filled <-> filled_quantity o' = quantity o') /\
  (status o' = open -> filled_quantity o' = 0) /\
  (status o' = partially_filled -> 0 < filled_quantity o').
Proof.
  intros (Hq & Hf & Hfilled & Hopen & Hpart) Hallowed. cbv zeta.
  destruct op as [q| |reason]; simpl in *.
  - destruct Hallowed as [Ho Hqr].
    unfold fill. cbv zeta. unfold is_filled. simpl. znum.
    destruct (quantity o <=? filled_quantity o + q) eqn:E1; zbool; simpl.
    + split_and!; try done; try lia. split; [lia|done].
    + destruct (0 <? filled_quantity o + q) eqn:E2; zbool; simpl.
      * split_and!; try done; try lia. split; [done|lia].
      * lia.
  - unfold cancel. destruct (is_open o) eqn:Ho; simpl; [|done].
    split_and!; try done; try lia. split; [done|]. intros Heq.
    apply Hfilled in Heq. unfold is_open in Ho. by rewrite Heq in Ho.
  - split_and!; try done; try lia. split; [done|]. intros Heq.
    apply Hfilled in Heq. unfold is_open in Hallowed. by rewrite Heq in Hallowed.
Qed.

End LifecycleFacts.




Section ServiceFacts.
Context {num : Type} `{JsNum num}.
Implicit Types (s : ExchangeService num) (e : MatchingEngine num) (b : OrderBook num).

Lemma truthy_Some (k : string) : k <> ""%string -> truthy (Some k) = true.
Proof. by destruct k. Qed.

Lemma db_getOrder_id (id : string) (db : Postgres num) (row : Order num) :
  db_getOrder id db = Some row -> order_id row = id.
Proof.
  unfold db_getOrder. intros Hf. apply List.find_some in Hf as [_ Heq].
  by apply String.eqb_eq.
Qed.

Lemma removeOrder_orders (h : list (Order num)) (id : string) b l o :
  orders b !! id = Some l -> h !! l = Some o ->
  orders (removeOrder h id b) = delete id (orders b).
Proof. intros Hl Ho. unfold removeOrder. rewrite Hl, Ho. by destruct (side o). Qed.

(** What [cancelOrder] returns when it returns. *)
Lemma cancelOrder_Ok (id : string) e o' e' :
  cancelOrder id e = Ok (o', e') ->
  status o' = cancelled /\ orders (orderBook e') !! id = None /\
  is_Some (orders (orderBook e) !! id).
Proof.
  unfold cancelOrder.
  destruct (orders (orderBook e) !! id) as [l|] eqn:Hidx; [|done].
  destruct (heap e !! l) as [o|] eqn:Hl; [|done].
  unfold cancel. destruct (is_open o); simpl; [|done].
  intros [= <- <-]. split_and!; [done| |by eexists].
  simpl. rewrite (removeOrder_orders _ id _ l (set_status cancelled o) Hidx).
  - apply lookup_delete_eq.
  - apply list_lookup_insert_eq. by eapply lookup_lt_Some.
Qed.

Lemma cancelOrder_absent (id : string) e :
  orders (orderBook e) !! id = None -> cancelOrder id e = Throw (not_found id).
Proof. unfold cancelOrder. by intros ->. Qed.

End ServiceFacts.

(** C9.  A [submitOrder] whose idempotency key the cache resolves to the id
    of an order in the record store returns that stored order, with that
    id, no trades, and the service exactly as it was: nothing persisted,
    nothing matched, nothing published. *)
Theorem C9_idempotent_submission {num : Type} `{JsNum num} (fuel : nat) (now : Z)
    (uuid : string) (orderData : OrderData num) (key existingOrderId : string)
    (existingOrder : Order num) (s : ExchangeService num) :
  key <> ""%string ->
  getIdempotencyKey key (redis s) = Some existingOrderId ->
  existingOrderId <> ""%string ->
  db_getOrder existingOrderId (postgres s) = Some existingOrder ->
  submitOrder fuel now uuid orderData (Some key) s =
    Some (mkSubmitResult (fromDB existingOrder) [] None, s) /\
  order_id (fromDB existingOrder) = existingOrderId.
Proof.
  intros Hkey Hget Hid Hdb. split; [|by eapply db_getOrder_id].
  unfold submitOrder. rewrite (truthy_Some key Hkey). simpl.
  rewrite Hget. rewrite (truthy_Some existingOrderId Hid). simpl.
  by rewrite Hdb.
Qed.

(** Witness for C9: order X stored under key K. *)
Lemma C9_witness :
  let x := mkOrder "X" "c1" "BTC-USD" buy limit 70000 10 0 open (Some "K"%string) 1 in
  let s := newService (mkPostgres [x] [] [] []) {["idempotency:K"%string := "X"%string]} in
  submitOrder 5 2 "fresh-uuid" (mkOrderData None "c1" None buy limit 70000 10)
    (Some "K"%string) s = Some (mkSubmitResult x [] None, s).
Proof.
  cbv zeta.
  apply (C9_idempotent_submission 5 2 "fresh-uuid"
           (mkOrderData None "c1" None buy limit 70000 10) "K" "X"
           (mkOrder "X" "c1" "BTC-USD" buy limit 70000 10 0 open (Some "K"%string) 1)).
  - discriminate.
  - by vm_compute.
  - discriminate.
  - reflexivity.
Defined.

(** C6, as the specification states it, fails: an order that is open in the
    record store but in no book is not cancelled in storage, the call
    throws and the row stays open; and cancelling an order that is terminal
    throws as well, so the second of two cancels returns no order. *)
Lemma C6_counterexample :
  let x := mkOrder "X" "c1" "ETH-USD" buy limit 3000 10 0 open None 1 in
  let y := mkOrder "Y" "c1" "BTC-USD" buy limit 70000 10 0 cancelled None 1 in
  let s := newService (mkPostgres [x; y] [] [] []) ∅ in
  (exists s',
     service_cancelOrder "X" (Some "ETH-USD"%string) s = (Throw "Order X not found"%string, s') /\
     db_getOrder "X" (postgres s') = Some x /\ is_open x = true) /\
  (exists s',
     service_cancelOrder "Y" None s = (Throw "Order Y not found"%string, s') /\
     db_getOrder "Y" (postgres s') = Some y /\ status y = cancelled).
Proof.
  cbv zeta. split; eexists; split_and!; reflexivity.
Qed.

(** C6, amended.  When the order is not resident in the engine's book and
    the record store holds no still-active order with that id, the cancel
    throws [not_found orderId]: no order is returned, the record store, the
    cache and the publications are as before (at most the engine of a new
    instrument is created).  So of two cancels of the same id, the first
    returns the cancelled order and the second throws, leaves the service
    exactly as it was and produces no events. *)
Theorem C6_cancel_not_resident {num : Type} `{JsNum num} (orderId : string)
    (instr : option string) (s : ExchangeService num) :
  let i := string_or instr defaultInstrument in
  ((forall e, engines s !! i = Some e -> orders (orderBook e) !! orderId = None) ->
   (forall row, db_getOrder orderId (postgres s) = Some row -> is_open row = false) ->
   exists s',
     service_cancelOrder orderId instr s = (Throw (not_found orderId), s') /\
     postgres s' = postgres s /\ redis s' = redis s /\ published s' = published s /\
     (engines s' = engines s \/ engines s' = <[i := newEngine i]> (engines s))) /\
  (forall o s1,
     service_cancelOrder orderId instr s = (Ok o, s1) ->
     status o = cancelled /\
     service_cancelOrder orderId instr s1 = (Throw (not_found orderId), s1)).
Proof.
  cbv zeta. split.
  - intros Habsent _. unfold service_cancelOrder, getEngine.
    destruct (engines s !! string_or instr defaultInstrument) as [e|] eqn:He.
    + rewrite (cancelOrder_absent orderId e) by by apply Habsent.
      exists s. split_and!; try done. by left.
    + rewrite cancelOrder_absent by done.
      eexists. split_and!; try done. by right.
  - intros o s1. unfold service_cancelOrder at 1.
    destruct (getEngine (string_or instr defaultInstrument) s) as [e s0] eqn:Hge.
    destruct (cancelOrder orderId e) as [[o' e']|msg] eqn:Hc; [|done].
    intros [= <- <-].
    destruct (cancelOrder_Ok orderId e o' e' Hc) as (Hst & Hnone & _).
    split; [done|].
    unfold service_cancelOrder, getEngine. simpl.
    rewrite lookup_insert_eq. by rewrite cancelOrder_absent.
Qed.

(** Witness for C6: order A rests in the book; cancelled once, cancelled
    again. *)
Lemma C6_witness :
  let a := mkOrder "A" "c1" "BTC-USD" buy limit 70000 10 0 open None 1 in
  let e := set_orderBook (addOrder 0%nat a emptyBook) (set_heap [a] (newEngine "BTC-USD")) in
  let s := mkService {["BTC-USD"%string := e]} (mkPostgres [a] [] [] []) ∅ [] in
  (exists o s1,
     service_cancelOrder "A" None s = (Ok o, s1) /\ status o = cancelled /\
     service_cancelOrder "A" None s1 = (Throw "Order A not found"%string, s1)) /\
  (exists s2, service_cancelOrder "Z" None s = (Throw "Order Z not found"%string, s2) /\
              postgres s2 = postgres s).
Proof.
  cbv zeta.
  match goal with |- context [service_cancelOrder "Z" None ?s = _] =>
    destruct (C6_cancel_not_resident (num := Z) "A" None s) as [_ Htwice];
    destruct (C6_cancel_not_resident (num := Z) "Z" None s) as [Habsent _]
  end.
  cbv zeta in Htwice, Habsent. split.
  - eexists _, _. split; [reflexivity|]. apply Htwice. reflexivity.
  - destruct Habsent as (s2 & Hc & Hdb & _).
    + intros e He. vm_compute in He. injection He as <-. reflexivity.
    + intros row Hrow. vm_compute in Hrow. discriminate Hrow.
    + exists s2. split; [exact Hc|exact Hdb].
Defined.

Section ArithmeticFacts.
Context {num : Type} `{JsNum num}.
Implicit Types (o : Order num) (q : num).

Lemma fill_keeps o q :
  order_id (fill q o) = order_id o /\
  filled_quantity (fill q o) = nadd (filled_quantity o) q.
Proof. unfold fill. cbv zeta. repeat case_match; simpl; done. Qed.

Lemma fills_fold o (qs : list num) :
  filled_quantity (apply_ops (OpFill <$> qs) o) = fold_left nadd qs (filled_quantity o).
Proof.
  revert o. induction qs as [|q qs IH]; intros o; [done|].
  simpl. rewrite IH. by destruct (fill_keeps o q) as [_ ->].
Qed.

End ArithmeticFacts.

Lemma fold_left_Zadd (qs : list Z) (a : Z) :
  fold_left Z.add qs a = a + foldr Z.add 0 qs.
Proof. revert a. induction qs as [|q qs IH]; intros a; simpl; [lia|]. rewrite IH. lia. Qed.




Section RecoveryFacts.
Implicit Types (db : Postgres Z) (r : Order Z).

Lemma getOpenOrders_elem instr db r :
  r ∈ getOpenOrders instr db <->
  r ∈ orders_table db /\ instrument r = instr /\ is_open r = true.
Proof.
  unfold getOpenOrders. rewrite merge_sort_Permutation.
  rewrite !list_elem_of_In, filter_In, andb_true_iff, String.eqb_eq. tauto.
Qed.

Lemma getOpenOrders_open instr db :
  Forall (fun r => is_open r = true) (getOpenOrders instr db).
Proof. apply Forall_forall. intros r Hr. by apply getOpenOrders_elem in Hr as (_ & _ & ?). Qed.

Lemma initialize_engines db cache :
  engines (initialize (newService db cache)) =
  {[ defaultInstrument := rebuild (getOpenOrders defaultInstrument db) ]}.
Proof.
  unfold initialize, _loadOpenOrders, getEngine. simpl.
  rewrite lookup_empty. simpl. by rewrite insert_insert_eq.
Qed.

End RecoveryFacts.




(** * The trades of one incoming order *)

Section SweepFacts.
Implicit Types (e : MatchingEngine Z) (o r : Order Z) (s : Side) (t : Trade Z).

Lemma trade_for_fields s instr o r p q :
  trade_price (trade_for s instr o r p q) = p /\
  trade_quantity (trade_for s instr o r p q) = q /\
  trade_instrument (trade_for s instr o r p q) = instr.
Proof. by destruct s. Qed.

Lemma no_better_refl s p : no_better s p p.
Proof. destruct s; simpl; lia. Qed.

Lemma processOrder_sweep fuel e o :
  engine_ok e -> submittable e o -> (length (heap e) + 2 <= fuel)%nat ->
  exists e' o' ts,
    processOrder fuel o e = Some e' /\ engine_ok e' /\
    heap e' !! length (heap e) = Some o' /\ same_static o o' /\
    trades e' = (trades e ++ ts)%list /\
    filled_quantity o' = sum_quantities ts /\
    filled_quantity o' <= quantity o /\
    Forall (fun t => 0 < trade_quantity t /\ trade_instrument t = engine_instrument e) ts /\
    (type o = limit ->
     Forall (fun t => within_limit (side o) (price o) (trade_price t)) ts) /\
    StronglySorted (no_better (side o)) (trade_price <$> ts) /\
    getOrder (order_id o) e' =
      (if bool_decide (type o = limit /\ filled_quantity o' < quantity o)
       then Some o' else None).
Proof.
  intros Hok Hsub Hfuel.
  destruct (processOrder_spec (sweep_inv e o) fuel e o Hok Hsub Hfuel)
    as (e1 & o1 & Hloop & Hok1 & Hbase & (o1' & ts & Ho1' & Hts & Hsum & Hpos & Hlim
        & Hsorted & Hbound) & Ho1 & Hst & Hdone & Hproc & Hok').
  - intros e1 o1 best r lv ps Hok1 Hbase (o1' & ts & Ho1' & Hts & Hsum & Hpos & Hlim
      & Hsorted & Hbound) Ho1 Hrem Hp Hg Hr Hres Hstop.
    assert (o1' = o1) as -> by congruence.
    destruct (exec_fields_loop (side o) _ e1 o1 best r
                (Z.min (remaining_quantity o1) (remaining_quantity r)) Hok1 Ho1 Hres Hr)
      as (Hne & Hh & Ht & _ & Hinstr & _).
    destruct (exec_loop_ok (side o) _ e1 o1 best r Hok1 Ho1 Hrem Hres Hr)
      as (_ & _ & Hq & _ & Hprices & _).
    pose proof (incoming_at_start e o e1 o1 Hbase Ho1) as (_ & _ & _ & Hside1 & Hty1 & Hpr1 & _).
    destruct (trade_for_fields (side o) (engine_instrument e1) o1 r (price r)
                (Z.min (remaining_quantity o1) (remaining_quantity r))) as (Htp & Htq & Hti).
    assert (forall p, p ∈ price r :: ps -> no_better (side o) (price r) p) as Hhead.
    { intros p Hin. destruct Hok1 as [[Hb _] _].
      pose proof (opp_ladder_ok (side o) _ _ Hb) as Hlo.
      pose proof (lo_sorted _ _ Hlo) as Hs. rewrite Hp in Hs.
      destruct (sorted_head_best _ _ _ _ Hs Hin) as [->|Hbf]; [apply no_better_refl|].
      destruct (side o); simpl in *; unfold before in Hbf; simpl in Hbf; lia. }
    eexists _, _. split_and!.
    + rewrite Hh. rewrite list_lookup_insert_ne by done.
      apply list_lookup_insert_eq. by eapply lookup_lt_Some.
    + rewrite Ht, Hts. by rewrite <- (assoc_L (++)).
    + rewrite fill_filled_quantity, sum_quantities_snoc, Hsum. by rewrite Htq.
    + apply Forall_app. split; [done|]. apply Forall_singleton.
      rewrite Htq, Hti. split; [done|]. by destruct Hbase as (_ & _ & Hi & _).
    + intros Hty. apply Forall_app. split; [by apply Hlim|]. apply Forall_singleton.
      rewrite Htp. rewrite bool_decide_eq_true_2 in Hstop by done. simpl in Hstop.
      destruct (no_cross (side o) o1 r) eqn:Hnc; [done|].
      assert (~ match side o with buy => price o1 < price r | sell => price r < price o1 end)
        as Hn by (rewrite <- no_cross_spec; congruence).
      rewrite Hpr1 in Hn. destruct (side o); simpl; lia.
    + rewrite fmap_app. apply StronglySorted_app_2; [|exact Hsorted|repeat constructor].
      intros x1 x2 Hx1 Hx2. apply list_elem_of_fmap in Hx1 as (t1 & -> & Ht1).
      rewrite list_fmap_singleton, list_elem_of_singleton in Hx2. subst x2. rewrite Htp.
      rewrite Forall_forall in Hbound. apply (Hbound t1 Ht1). rewrite Hp. left.
    + apply Forall_app. split.
      * rewrite Forall_forall in Hbound |- *. intros t Hin p Hpin.
        apply (Hbound t Hin). by apply (Hprices (opposite (side o))).
      * apply Forall_singleton. intros p Hpin. rewrite Htp. apply Hhead.
        rewrite <- Hp. by apply (Hprices (opposite (side o))).
  - exists o, []. split_and!; try by constructor.
    + simpl. by apply list_lookup_middle.
    + by rewrite app_nil_r.
    + by destruct Hsub as [(_ & -> & _) _].
  - assert (o1' = o1) as -> by congruence.
    pose proof Hst as (Hid & _ & _ & Hside & Hty1 & Hpr1 & Hq1).
    destruct (after_loop_ok _ e1 o1 Hok1 Ho1)
      as (_ & Htr & _ & _ & _ & _ & _ & o' & Ho' & Hst' & Hf' & Hcase).
    { by rewrite Hside, Hty1. }
    destruct Hok1 as (_ & o1'' & Ho1'' & Htaker & Hfresh & Hidx).
    assert (o1'' = o1) as -> by congruence.
    exists (set_lock false (after_loop (length (heap e)) e1)), o', ts.
    split_and!; try done.
    + destruct Hst as (? & ? & ? & ? & ? & ? & ?).
      destruct Hst' as (? & ? & ? & ? & ? & ? & ?). repeat split; congruence.
    + change (trades (after_loop (length (heap e)) e1) = (trades e ++ ts)%list). congruence.
    + congruence.
    + rewrite Hf', <- Hq1. destruct Htaker as [[_ ?]|[_ ?]]; lia.
    + unfold getOrder.
      change (orderBook (set_lock false (after_loop (length (heap e)) e1)))
        with (orderBook (after_loop (length (heap e)) e1)).
      change (heap (set_lock false (after_loop (length (heap e)) e1)))
        with (heap (after_loop (length (heap e)) e1)).
      rewrite Hf', <- Hq1, <- Hid, <- Hty1.
      destruct (type o1) eqn:Hty.
      * destruct Hcase as [-> Hcase].
        destruct Htaker as [[Hopen Hlt]|[Hfill Heq]].
        -- rewrite Hopen in Hcase. destruct Hcase as [Hbk _]. rewrite Hbk.
           rewrite bool_decide_eq_true_2 by done.
           unfold addOrder. destruct (side o1); simpl;
             rewrite lookup_insert_eq; simpl; exact Ho'.
        -- assert (is_open o1 = false) as Hopen by (unfold is_open; by rewrite Hfill).
           rewrite Hopen in Hcase. destruct Hcase as [Hbk _]. rewrite Hbk, Hidx.
           rewrite bool_decide_eq_false_2; [done|]. intros [_ ?]. lia.
      * destruct Hcase as [Hbk _]. rewrite Hbk, Hidx.
        rewrite bool_decide_eq_false_2; [done|]. by intros [? _].
Qed.

Lemma sorted_lookup {A} (R : relation A) (l : list A) i j x y :
  StronglySorted R l -> (i < j)%nat -> l !! i = Some x -> l !! j = Some y -> R x y.
Proof.
  intros Hs. revert i j. induction Hs as [|x0 l Hs IH Hf]; intros i j Hij Hi Hj; [done|].
  destruct j as [|j]; [lia|]. simpl in Hj. destruct i as [|i].
  - injection Hi as <-. rewrite Forall_forall in Hf. apply Hf.
    by eapply list_elem_of_lookup_2.
  - simpl in Hi. apply (IH i j); [lia|done..].
Qed.

Lemma resting_engine_ok : engine_ok resting_engine.
Proof.
  destruct (run_commands_ok 5 resting_orders (newEngine "BTC-USD") [] 0)
    as (e & Hrun & Hok & _).
  - apply newEngine_ok.
  - intros id [l Hl]. simpl in Hl. by rewrite lookup_empty in Hl.
  - split.
    + vm_compute. repeat constructor; set_solver.
    + intros o Hin. unfold resting_orders in Hin.
      repeat (apply elem_of_cons in Hin as [Hin|Hin];
              [first [discriminate Hin | injection Hin as ->; by vm_compute]|]).
      by apply elem_of_nil in Hin.
  - intros id _. apply not_elem_of_nil.
  - simpl. lia.
  - simpl. lia.
  - unfold resting_engine. by rewrite Hrun.
Qed.

End SweepFacts.









(** * Cancelling and resting *)

Section DepthFacts.
Implicit Types (e : MatchingEngine Z) (o r : Order Z) (s : Side) (h : list (Order Z))
  (lv : list nat) (l : nat).

Lemma level_total_sum h lv :
  level_total h lv = foldr (fun l acc => remaining_at h l + acc) 0 lv.
Proof.
  unfold level_total. znum.
  assert (forall a, fold_left (fun sum l => match h !! l with
                                          | Some o => sum + remaining_quantity o
                                          | None => sum
                                          end) lv a
                    = a + foldr (fun l acc => remaining_at h l + acc) 0 lv) as Hgen.
  { induction lv as [|l lv IH]; intros a; cbn [fold_left foldr]; [lia|].
    rewrite IH. unfold remaining_at. destruct (h !! l); lia. }
  rewrite Hgen. lia.
Qed.

Lemma level_total_app h lv1 lv2 :
  level_total h (lv1 ++ lv2) = level_total h lv1 + level_total h lv2.
Proof.
  rewrite !level_total_sum. induction lv1 as [|l lv1 IH]; simpl; [done|]. lia.
Qed.

Lemma level_total_delete h lv k l :
  lv !! k = Some l ->
  level_total h (delete k lv) = level_total h lv - remaining_at h l.
Proof.
  rewrite !level_total_sum. revert k. induction lv as [|l' lv IH]; intros k Hk; [done|].
  destruct k as [|k]; simpl in *.
  - injection Hk as ->. lia.
  - rewrite (IH k Hk). lia.
Qed.

(** The total of a level reads only the objects of the level. *)
Lemma level_total_ext h h' lv :
  (forall l, l ∈ lv -> remaining_at h' l = remaining_at h l) ->
  level_total h' lv = level_total h lv.
Proof.
  rewrite !level_total_sum. induction lv as [|l lv IH]; intros Hext; simpl; [done|].
  rewrite Hext by left. rewrite IH; [done|]. intros l' Hl'. apply Hext. by right.
Qed.

Lemma remaining_at_insert_ne h l l' o' : l' <> l -> remaining_at (<[l := o']> h) l' = remaining_at h l'.
Proof. intros Hne. unfold remaining_at. by rewrite list_lookup_insert_ne. Qed.

Lemma remaining_at_app h o l : (l < length h)%nat -> remaining_at (h ++ [o]) l = remaining_at h l.
Proof. intros Hlt. unfold remaining_at. by rewrite lookup_app_l. Qed.

End DepthFacts.





(** * The snapshot of the book *)

Section SnapshotFacts.
Implicit Types (e : MatchingEngine Z) (h : list (Order Z)) (m : list (Z * list nat))
  (ps : list Z) (lvl : SnapshotLevel Z).

Lemma snapshot_side_prices h m ps total :
  level_price <$> snapshot_side h m ps total = ps.
Proof.
  revert total. induction ps as [|p ps IH]; intros total; [done|].
  simpl. by rewrite IH.
Qed.

Lemma snapshot_side_lookup h m ps total i lvl :
  snapshot_side h m ps total !! i = Some lvl ->
  ps !! i = Some (level_price lvl) /\
  level_quantity lvl = level_total h (default [] (map_get (level_price lvl) m)) /\
  level_cumulative lvl =
    total + foldr Z.add 0 (level_quantity <$> take (S i) (snapshot_side h m ps total)).
Proof.
  revert total i lvl. induction ps as [|p ps IH]; intros total i lvl Hi; [done|].
  destruct i as [|i].
  - injection Hi as <-. cbn [level_price level_quantity level_cumulative].
    split_and!; try done. cbn. rewrite take_0. cbn. znum. lia.
  - cbn [snapshot_side] in Hi. cbv zeta in Hi. rewrite lookup_cons in Hi.
    destruct (IH _ _ _ Hi) as (Hp & Hq & Hc). split_and!; try done.
    rewrite Hc. cbn. znum. lia.
Qed.

Lemma side_levels_eq s n e :
  side_levels s (getOrderBookSnapshot n e) =
  snapshot_side (heap e) (levels (ladder_of s (orderBook e)))
    (take n (prices (ladder_of s (orderBook e)))) 0.
Proof. by destruct s. Qed.

Lemma sorted_by_key {A} (R : relation Z) (f : A -> Z) (l : list A) :
  StronglySorted R (f <$> l) -> StronglySorted (fun a b => R (f a) (f b)) l.
Proof.
  induction l as [|x l IH]; intros Hs; [constructor|].
  rewrite fmap_cons in Hs. apply StronglySorted_inv in Hs as [Hs Hf].
  constructor; [by apply IH|]. by rewrite Forall_fmap in Hf.
Qed.

Lemma sorted_take {A} (R : relation A) (l : list A) n :
  StronglySorted R l -> StronglySorted R (take n l).
Proof.
  intros Hs. rewrite <- (take_drop n l) in Hs. by apply StronglySorted_app_1_l in Hs.
Qed.

Lemma level_total_pos h lv :
  lv <> [] -> (forall l, l ∈ lv -> 0 < remaining_at h l) -> 0 < level_total h lv.
Proof.
  rewrite level_total_sum. intros Hne Hpos.
  assert (0 <= foldr (fun l acc => remaining_at h l + acc) 0 lv \/ lv = []) as Hge.
  { left. clear Hne. induction lv as [|l lv IH]; simpl; [lia|].
    assert (0 < remaining_at h l) by (apply Hpos; left).
    assert (0 <= foldr (fun l acc => remaining_at h l + acc) 0 lv)
      by (apply IH; intros l' Hl'; apply Hpos; by right).
    lia. }
  destruct lv as [|l lv]; [done|]. simpl.
  assert (0 < remaining_at h l) by (apply Hpos; left).
  assert (0 <= foldr (fun l acc => remaining_at h l + acc) 0 lv); [|lia].
  clear Hne Hge H. induction lv as [|l' lv IH]; simpl; [lia|].
  assert (0 < remaining_at h l') by (apply Hpos; right; left).
  assert (0 <= foldr (fun l acc => remaining_at h l + acc) 0 lv); [|lia].
  apply IH. intros l0 Hl0. apply Hpos.
  apply elem_of_cons in Hl0 as [->|Hl0]; [left|right; by right].
Qed.

(** At rest every listed price has something on offer. *)
Lemma depth_pos e s p :
  engine_ok e -> p ∈ prices (ladder_of s (orderBook e)) -> 0 < depth e s p.
Proof.
  intros ([Hb Hlive] & _) Hp. unfold depth.
  assert (ladder_ok (bool_decide (s = buy)) (ladder_of s (orderBook e))) as Hlo
    by (destruct s; apply Hb).
  apply level_total_pos.
  - by apply (ladder_prices_level _ _ _ Hlo).
  - intros l Hl. apply (level_of_resident _ _ _ _ _ Hb) in Hl.
    destruct (bs_resting _ _ Hb _ _ _ Hl) as (o & Ho & _).
    destruct (Hlive _ _ _ _ Hl Ho) as [_ Hlt].
    unfold remaining_at. rewrite Ho, remaining_eq. lia.
Qed.

Lemma snapshot_side_pos h m ps total lvl :
  0 <= total ->
  (forall p, p ∈ ps -> 0 < level_total h (default [] (map_get p m))) ->
  lvl ∈ snapshot_side h m ps total ->
  0 < level_quantity lvl <= level_cumulative lvl.
Proof.
  revert total. induction ps as [|p ps IH]; intros total Ht Hpos Hin.
  { by apply elem_of_nil in Hin. }
  assert (0 < level_total h (default [] (map_get p m))) by (apply Hpos; left).
  cbn [snapshot_side] in Hin. cbv zeta in Hin.
  apply elem_of_cons in Hin as [->|Hin].
  - cbn. znum. lia.
  - apply (IH (nadd total (level_total h (default [] (map_get p m))))); [znum; lia| |done].
    intros p' Hp'. apply Hpos. by right.
Qed.

End SnapshotFacts.




(** * Reading the engine *)

(** X9.  [getRecentTrades(limit)] with a limit of at least 1 returns the
    newest [limit] trades, newest first (all of them when there are fewer);
    with a limit of 0 it returns every trade, newest first, since
    [slice(-0)] keeps the whole array. *)
Theorem X9_getRecentTrades {num : Type} `{JsNum num} (limit : nat) (e : MatchingEngine num) :
  (getRecentTrades 0 e = reverse (trades e)) /\
  ((1 <= limit)%nat ->
   getRecentTrades limit e = take limit (reverse (trades e)) /\
   length (getRecentTrades limit e) = (limit `min` length (trades e))%nat /\
   head (getRecentTrades limit e) = last (trades e)).
Proof.
  split; [done|]. intros Hlim.
  assert (getRecentTrades limit e = take limit (reverse (trades e))) as Heq.
  { unfold getRecentTrades. destruct limit as [|k]; [lia|]. by rewrite take_reverse. }
  rewrite Heq. split_and!; [done| |].
  - by rewrite length_take, length_reverse.
  - destruct limit as [|k]; [lia|]. rewrite <- head_reverse.
    by destruct (reverse (trades e)).
Qed.

(** Witness for X9: the newest of three trades. *)
Lemma X9_witness :
  let e := mkEngine "BTC-USD" emptyBook
             [mkTrade "B1" "S1" "BTC-USD" 70000 1; mkTrade "B2" "S2" "BTC-USD" 70100 2;
              mkTrade "B3" "S3" "BTC-USD" 70200 3] false [] [] [] in
  getRecentTrades 2 e =
    [mkTrade "B3" "S3" "BTC-USD" 70200 3; mkTrade "B2" "S2" "BTC-USD" 70100 2] /\
  length (getRecentTrades 0 e) = 3%nat.
Proof.
  cbv zeta. split; [|reflexivity].
  match goal with |- getRecentTrades 2 ?e = _ =>
    destruct (X9_getRecentTrades (num := Z) 2 e) as [_ Hlim];
    destruct Hlim as (Heq & _); [lia|]; rewrite Heq
  end.
  reflexivity.
Defined.

(** * Fills and trades balance *)

Section BalanceFacts.
Implicit Types (e : MatchingEngine Z) (o r : Order Z) (s : Side) (h : list (Order Z))
  (w : Order Z -> Z) (t : Trade Z) (ts : list (Trade Z)).

Lemma wsum_app w h1 h2 : wsum w (h1 ++ h2) = wsum w h1 + wsum w h2.
Proof. unfold wsum. induction h1 as [|o h1 IH]; simpl; lia. Qed.

Lemma wsum_insert w h l o o' :
  h !! l = Some o -> wsum w (<[l := o']> h) = wsum w h + (w o' - w o).
Proof.
  unfold wsum. revert l. induction h as [|x h IH]; intros l Hl; [done|].
  destruct l as [|l]; simpl in *.
  - injection Hl as ->. lia.
  - rewrite (IH l Hl). lia.
Qed.

Lemma wsum_insert2 w h a b x y x' y' :
  h !! a = Some x -> h !! b = Some y -> a <> b ->
  wsum w (<[b := y']> (<[a := x']> h)) = wsum w h + (w x' - w x) + (w y' - w y).
Proof.
  intros Ha Hb Hne. rewrite (wsum_insert w _ b y).
  - by rewrite (wsum_insert w _ a x).
  - by rewrite list_lookup_insert_ne.
Qed.

Lemma ids_insert h l o o' :
  h !! l = Some o -> order_id o' = order_id o ->
  order_id <$> <[l := o']> h = order_id <$> h.
Proof.
  intros Hl Hid. rewrite list_fmap_insert, Hid. apply list_insert_id.
  by rewrite list_lookup_fmap, Hl.
Qed.

Lemma traded_snoc id ts t :
  traded id (ts ++ [t]) =
  traded id ts +
  (if String.eqb (buy_order_id t) id || String.eqb (sell_order_id t) id
   then trade_quantity t else 0).
Proof. unfold traded. induction ts as [|t' ts IH]; simpl; lia. Qed.

Lemma trade_for_ids s instr o r p q :
  (buy_order_id (trade_for s instr o r p q) = order_id o /\
   sell_order_id (trade_for s instr o r p q) = order_id r) \/
  (buy_order_id (trade_for s instr o r p q) = order_id r /\
   sell_order_id (trade_for s instr o r p q) = order_id o).
Proof. destruct s; simpl; auto. Qed.

(** Under distinct ids, what is filled under the id of an object is what
    the object has filled. *)
Lemma filled_by_own h o :
  NoDup (order_id <$> h) -> o ∈ h -> filled_by (order_id o) h = filled_quantity o.
Proof.
  unfold filled_by, wsum. induction h as [|x h IH]; intros Hnd Hin.
  { by apply elem_of_nil in Hin. }
  rewrite fmap_cons in Hnd. apply NoDup_cons in Hnd as [Hx Hnd]. simpl.
  assert (forall id, id ∉ order_id <$> h ->
            foldr (fun o acc => (if String.eqb (order_id o) id
                                 then filled_quantity o else 0) + acc) 0 h = 0) as Hzero.
  { clear. intros id Hnin. induction h as [|y h IH]; simpl; [done|].
    rewrite fmap_cons, not_elem_of_cons in Hnin. destruct Hnin as [Hne Hnin].
    rewrite IH by done. destruct (String.eqb_spec (order_id y) id); [congruence|lia]. }
  apply elem_of_cons in Hin as [->|Hin].
  - rewrite String.eqb_refl, Hzero by done. lia.
  - rewrite IH by done.
    destruct (String.eqb_spec (order_id x) (order_id o)) as [Heq|]; [|lia].
    exfalso. apply Hx. rewrite Heq. by apply list_elem_of_fmap_2.
Qed.

Lemma after_loop_heap (order : nat) e1 :
  trades (after_loop order e1) = trades e1 /\
  (heap (after_loop order e1) = heap e1 \/
   exists o1, heap e1 !! order = Some o1 /\
     heap (after_loop order e1) = <[order := reject "Insufficient liquidity" o1]> (heap e1)).
Proof.
  unfold after_loop. destruct (heap e1 !! order) as [o1|] eqn:Ho1; [|by split; [|left]].
  destruct (type o1).
  - rewrite Ho1. destruct (is_open o1); simpl; split; auto.
  - destruct (0 <? remaining_quantity o1).
    + cbn [heap push_calls set_heap].
      destruct (<[order := reject "Insufficient liquidity" o1]> (heap e1) !! order)
        as [o2|]; [|split; [done|right; eauto]].
      destruct (is_open o2); simpl; split; try done; right; eauto.
    + rewrite Ho1. destruct (is_open o1); simpl; split; auto.
Qed.

(** The part of [balanced] a matching loop works on. *)
Lemma exec_balance s order e1 o1 best r :
  loop_ok order e1 -> heap e1 !! order = Some o1 -> side o1 = s ->
  0 < remaining_quantity o1 ->
  resident (orderBook e1) (opposite s) (price r) best -> heap e1 !! best = Some r ->
  let e' := exec s order best (price r)
              (Z.min (remaining_quantity o1) (remaining_quantity r)) e1 in
  order_id <$> heap e' = order_id <$> heap e1 /\
  (filled_on buy (heap e1) = sum_quantities (trades e1) ->
   filled_on buy (heap e') = sum_quantities (trades e')) /\
  (filled_on sell (heap e1) = sum_quantities (trades e1) ->
   filled_on sell (heap e') = sum_quantities (trades e')) /\
  ((forall id, filled_by id (heap e1) = traded id (trades e1)) ->
   forall id, filled_by id (heap e') = traded id (trades e')).
Proof.
  intros Hok Ho1 Hside Hrem Hres Hr. cbv zeta.
  set (q := Z.min (remaining_quantity o1) (remaining_quantity r)).
  destruct (exec_fields_loop s order e1 o1 best r q Hok Ho1 Hres Hr)
    as (Hne & Hh & Ht & _).
  destruct Hok as ([Hb _] & o1' & Ho1' & _ & _ & Hidx).
  assert (o1' = o1) as -> by congruence.
  destruct (bs_resting _ _ Hb _ _ _ Hres) as (r' & Hr' & Hsr & _ & Hir).
  assert (r' = r) as -> by congruence.
  assert (order_id o1 <> order_id r) as Hids by (intros Heq; congruence).
  destruct (trade_for_fields s (engine_instrument e1) o1 r (price r) q) as (_ & Htq & _).
  rewrite Hh, Ht. split_and!.
  - rewrite (ids_insert _ best r); [|by rewrite list_lookup_insert_ne|apply fill_id].
    apply (ids_insert _ order o1); [done|apply fill_id].
  - intros Hbal. unfold filled_on. rewrite (wsum_insert2 _ _ order best o1 r) by done.
    fold (filled_on buy (heap e1)). rewrite Hbal, sum_quantities_snoc, Htq.
    rewrite !fill_side, !fill_filled_quantity, Hside, Hsr.
    destruct s; simpl; repeat case_decide; try done; lia.
  - intros Hbal. unfold filled_on. rewrite (wsum_insert2 _ _ order best o1 r) by done.
    fold (filled_on sell (heap e1)). rewrite Hbal, sum_quantities_snoc, Htq.
    rewrite !fill_side, !fill_filled_quantity, Hside, Hsr.
    destruct s; simpl; repeat case_decide; try done; lia.
  - intros Hbal id. unfold filled_by. rewrite (wsum_insert2 _ _ order best o1 r) by done.
    fold (filled_by id (heap e1)). rewrite Hbal, traded_snoc, Htq.
    rewrite !fill_id, !fill_filled_quantity.
    destruct (trade_for_ids s (engine_instrument e1) o1 r (price r) q) as [[-> ->]|[-> ->]];
      destruct (String.eqb_spec (order_id o1) id), (String.eqb_spec (order_id r) id);
      simpl; try lia; congruence.
Qed.

(** One submitted order keeps the balance. *)
Lemma processOrder_balanced fuel seen e o :
  engine_ok e -> balanced seen e -> submittable e o -> order_id o ∉ seen ->
  (length (heap e) + 2 <= fuel)%nat ->
  exists e', processOrder fuel o e = Some e' /\ engine_ok e' /\
             balanced (order_id o :: seen) e'.
Proof.
  intros Hok (Hnd & Hseen & Hbuy & Hsell & Hby) Hsub Hfresh Hfuel.
  destruct (processOrder_spec
              (fun e1 =>
                 order_id <$> heap e1 = order_id <$> (heap e ++ [o]) /\
                 filled_on buy (heap e1) = sum_quantities (trades e1) /\
                 filled_on sell (heap e1) = sum_quantities (trades e1) /\
                 forall id, filled_by id (heap e1) = traded id (trades e1))
              fuel e o Hok Hsub Hfuel)
    as (e1 & o1 & _ & Hok1 & _ & (Hids & Hb1 & Hs1 & Hby1) & Ho1 & _ & _ & Hproc & Hok').
  - intros e1 o1 best r lv ps Hok1 Hbase (Hids & Hb1 & Hs1 & Hby1) Ho1 Hrem _ _ Hr Hres _.
    pose proof (incoming_at_start e o e1 o1 Hbase Ho1) as (_ & _ & _ & Hside & _).
    destruct (exec_balance (side o) _ e1 o1 best r Hok1 Ho1 Hside Hrem Hres Hr)
      as (Hids' & Hb' & Hs' & Hby').
    split_and!; [congruence|auto..].
  - destruct Hsub as [(_ & Hf0 & _) _].
    cbn [heap trades set_lock set_heap]. split_and!; [done| | |].
    + unfold filled_on. rewrite wsum_app. fold (filled_on buy (heap e)).
      rewrite Hbuy. unfold wsum. simpl. rewrite Hf0. case_decide; lia.
    + unfold filled_on. rewrite wsum_app. fold (filled_on sell (heap e)).
      rewrite Hsell. unfold wsum. simpl. rewrite Hf0. case_decide; lia.
    + intros id. unfold filled_by. rewrite wsum_app. fold (filled_by id (heap e)).
      rewrite Hby. unfold wsum. simpl. rewrite Hf0. destruct (String.eqb _ _); lia.
  - exists (set_lock false (after_loop (length (heap e)) e1)).
    split; [done|]. split; [done|].
    destruct (after_loop_heap (length (heap e)) e1) as [Htr Hheap].
    assert (order_id <$> heap (after_loop (length (heap e)) e1) = order_id <$> heap e1 /\
            (forall w, (forall x msg, w (reject msg x) = w x) ->
               wsum w (heap (after_loop (length (heap e)) e1)) = wsum w (heap e1)))
      as [Hids2 Hw].
    { destruct Hheap as [->|(o2 & Ho2 & ->)]; [done|]. split.
      - by apply (ids_insert _ _ o2).
      - intros w Hwr. rewrite (wsum_insert w _ _ o2) by done. rewrite Hwr. lia. }
    unfold balanced. cbn [heap trades set_lock]. rewrite Htr.
    assert (order_id <$> heap (after_loop (length (heap e)) e1)
            = (order_id <$> heap e) ++ [order_id o]) as Hall.
    { rewrite Hids2, Hids. by rewrite fmap_app. }
    split_and!.
    + rewrite Hall. apply NoDup_app. split_and!; [done| |apply NoDup_singleton].
      intros id Hin Hin2. apply list_elem_of_singleton in Hin2 as ->.
      apply list_elem_of_fmap in Hin as (x & Hx & Hin). apply Hfresh.
      rewrite Hx. by apply Hseen.
    + intros x Hx. apply (list_elem_of_fmap_2 order_id) in Hx. rewrite Hall in Hx.
      apply elem_of_app in Hx as [Hx|Hx].
      * right. apply list_elem_of_fmap in Hx as (y & -> & Hy). by apply Hseen.
      * apply list_elem_of_singleton in Hx as ->. left.
    + unfold filled_on. rewrite Hw; [done|]. intros x msg. done.
    + unfold filled_on. rewrite Hw; [done|]. intros x msg. done.
    + intros id. unfold filled_by. rewrite Hw; [apply Hby1|]. intros x msg. done.
Qed.

(** A cancel keeps the balance. *)
Lemma cancelOrder_balanced seen id e o' e' :
  engine_ok e -> balanced seen e -> cancelOrder id e = Ok (o', e') -> balanced seen e'.
Proof.
  intros ([Hb Hlive] & _) (Hnd & Hseen & Hbuy & Hsell & Hby). unfold cancelOrder.
  destruct (orders (orderBook e) !! id) as [l|] eqn:Hidx; [|done].
  destruct (heap e !! l) as [o|] eqn:Hl; [|done].
  unfold cancel. destruct (is_open o); simpl; [|done].
  intros [= <- <-]. unfold balanced. cbn [heap trades set_orderBook set_heap].
  assert (order_id <$> <[l := set_status cancelled o]> (heap e) = order_id <$> heap e)
    as Hids by by apply (ids_insert _ _ o).
  assert (forall w, w (set_status cancelled o) = w o ->
            wsum w (<[l := set_status cancelled o]> (heap e)) = wsum w (heap e)) as Hw.
  { intros w Hwo. rewrite (wsum_insert w _ _ o) by done. lia. }
  split_and!.
  - by rewrite Hids.
  - intros x Hx. apply (list_elem_of_fmap_2 order_id) in Hx. rewrite Hids in Hx.
    apply list_elem_of_fmap in Hx as (y & -> & Hy). by apply Hseen.
  - unfold filled_on. by rewrite Hw.
  - unfold filled_on. by rewrite Hw.
  - intros id'. unfold filled_by. rewrite Hw by done. apply Hby.
Qed.

Lemma newEngine_balanced instr : balanced [] (newEngine instr).
Proof.
  unfold balanced. simpl. split_and!; try done.
  - constructor.
  - intros o Ho. by apply elem_of_nil in Ho.
Qed.

(** A run of commands keeps the balance. *)
Lemma run_commands_balanced fuel cs : forall e (seen : list string) n,
  engine_ok e -> balanced seen e ->
  commands_ok cs -> (forall id, id ∈ submitted_ids cs -> id ∉ seen) ->
  (length (heap e) <= n)%nat -> (n + length cs + 2 <= fuel)%nat ->
  exists e' seen', run_commands fuel cs e = Some e' /\ engine_ok e' /\ balanced seen' e'.
Proof.
  induction cs as [|c cs IH]; intros e seen n Hok Hbal Hcs Hfresh Hlen Hfuel; simpl.
  { by exists e, seen. }
  simpl in Hfuel. destruct Hcs as [Hnd Hnew].
  assert (forall id, is_Some (orders (orderBook e) !! id) -> id ∈ seen) as Hseen.
  { intros id [l Hl]. destruct Hok as ([Hb _] & _).
    destruct (bs_index _ _ Hb _ _ Hl) as (o & Ho & <- & _).
    destruct Hbal as (_ & Hs & _). apply Hs. by eapply list_elem_of_lookup_2. }
  destruct (run_command_ok fuel c e Hok) as (e1 & Hrun & Hok1 & Hlen1 & _); [|lia|].
  { destruct c as [o|id]; [|done]. split.
    - apply Hnew. left.
    - destruct (orders (orderBook e) !! order_id o) eqn:E; [|done].
      exfalso. apply (Hfresh (order_id o)); [left|]. apply Hseen. eauto. }
  rewrite Hrun. simpl.
  set (seen' := match c with Submit o => order_id o :: seen | Cancel _ => seen end).
  assert (balanced seen' e1) as Hbal1.
  { unfold seen'. destruct c as [o|id]; simpl in Hrun.
    - destruct (processOrder_balanced fuel seen e o Hok Hbal) as (e1' & Hrun' & _ & Hb');
        [| |lia|congruence].
      + split; [apply Hnew; left|].
        destruct (orders (orderBook e) !! order_id o) eqn:E; [|done].
        exfalso. apply (Hfresh (order_id o)); [left|]. apply Hseen. eauto.
      + apply Hfresh. left.
    - destruct (cancelOrder id e) as [[o' e1']|msg] eqn:Hc.
      + injection Hrun as ->. exact (cancelOrder_balanced seen id e o' e1 Hok Hbal Hc).
      + by injection Hrun as <-. }
  destruct (IH e1 seen' (S n)) as (e' & seen'' & Hrun' & Hok' & Hbal'); try done.
  - split.
    + destruct c; simpl in Hnd; [by apply NoDup_cons in Hnd as [_ ?]|done].
    + intros o Hin. apply Hnew. by right.
  - intros id Hin. unfold seen'. destruct c as [o|id']; simpl in *.
    + apply NoDup_cons in Hnd as [Hn _]. rewrite not_elem_of_cons. split.
      * by intros ->.
      * apply Hfresh. by right.
    + by apply Hfresh.
  - lia.
  - lia.
  - by exists e', seen''.
Qed.

End BalanceFacts.




